(** * Stable ImageNet-1K dataset preprocessor: model and properties

    A shallow embedding of [create_db_stable_imagenet-1k.cpp]:
    the directory scanner, the image loader, the dataset builder, the
    serialized stream, the train/test splitter, the interrupt flag and the
    program entry point.

    Conventions.
    - [size_t] and [unsigned long] are 64-bit (LP64); values are [Z] and the
      wrap-around of the arithmetic is written out with [Std.wrap].
    - [std::string] is [string]; characters compare as unsigned bytes.
    - C++ exceptions are the [Throw] outcomes of the [result] monad.
    - Calls into dlib whose code is not part of the program (image decoding,
      resampling, element encoders) are parameters of the model. *)

From Stdlib Require Import ZArith Lia Bool Ascii String List SpecFloat QArith Qround.
From Stdlib Require Strings.Byte.
From stdpp Require Import base list sorting strings gmap pretty.

Local Open Scope Z_scope.

(** ** The C++ runtime: exceptions, [size_t], [std::string] *)

Module Std.

Inductive exception : Type :=
| out_of_range
| length_error
| dir_not_found (path : string)
| image_load_error (path : string)
| serialization_error (what : string)
| dlib_error (what : string).

(** Outcome of a call: a value, a thrown exception, or behaviour the
    language leaves undefined (unchecked [operator[]] out of bounds, a
    floating value converted to an integer type that cannot hold it). *)
Inductive result (A : Type) : Type :=
| Ok (a : A)
| Throw (e : exception)
| Undefined.
Global Arguments Ok {A} a.
Global Arguments Throw {A} e.
Global Arguments Undefined {A}.

Global Instance result_ret : MRet result := fun _ a => Ok a.
Global Instance result_bind : MBind result := fun _ _ f m =>
  match m with
  | Ok a => f a
  | Throw e => Throw e
  | Undefined => Undefined
  end.

Definition SIZE_MODULUS : Z := 2 ^ 64.

(** Unsigned 64-bit wrap-around. *)
Definition wrap (z : Z) : Z := z mod SIZE_MODULUS.

(** [std::string::npos], i.e. [size_t(-1)]. *)
Definition npos : Z := SIZE_MODULUS - 1.

Definition size (s : string) : Z := Z.of_nat (String.length s).

(** [s.find(c)] scanning from index [i]. *)
Fixpoint find_from (s : string) (c : ascii) (i : Z) : Z :=
  match s with
  | EmptyString => npos
  | String a s' => if Ascii.eqb a c then i else find_from s' c (i + 1)
  end.

Definition find (s : string) (c : ascii) : Z := find_from s c 0.

Fixpoint drop_chars (n : nat) (s : string) : string :=
  match n, s with
  | O, _ => s
  | S n', String _ s' => drop_chars n' s'
  | S _, EmptyString => EmptyString
  end.

(** [s.substr(pos)]: throws [std::out_of_range] when [pos > s.size()]. *)
Definition substr (s : string) (pos : Z) : result string :=
  if size s <? pos then Throw out_of_range
  else Ok (drop_chars (Z.to_nat pos) s).

(** [::tolower] in the C locale. *)
Definition tolower_char (c : ascii) : ascii :=
  let n := N_of_ascii c in
  if ((65 <=? n) && (n <=? 90))%N then ascii_of_N (n + 32) else c.

(** [dlib::tolower(const std::string&)]: character-wise [::tolower]. *)
Fixpoint tolower (s : string) : string :=
  match s with
  | EmptyString => EmptyString
  | String a s' => String (tolower_char a) (tolower s')
  end.

End Std.

Import Std.

(** ** Directory navigation ([dlib/dir_nav.h]) *)

Module DirNav.

(** A [dlib::file]: its [name()] and the full path it converts to. *)
Record file : Type := File { file_name : string; file_full_name : string }.

(** A [dlib::directory] with the entries its accessors enumerate. *)
#[warnings="-register-all"] Inductive directory : Type :=
| Directory (name : string) (files : list file) (dirs : list directory).

Definition dir_name (d : directory) : string :=
  let 'Directory n _ _ := d in n.
Definition get_files (d : directory) : list file :=
  let 'Directory _ fs _ := d in fs.
Definition get_dirs (d : directory) : list directory :=
  let 'Directory _ _ ds := d in ds.

(** The file system seen through [directory(path)]: [None] when the path
    is not an existing directory. *)
Definition filesystem : Type := string -> option directory.

Definition open_directory (fs : filesystem) (path : string) : result directory :=
  match fs path with
  | Some d => Ok d
  | None => Throw (dir_not_found path)
  end.

End DirNav.

Import DirNav.

(** ** Directory scanner *)

Module Scanner.

Record imagenet_info : Type := ImagenetInfo {
  filename : string;
  label : string;
  numeric_label : Z
}.

Definition set_filename (t : imagenet_info) (f : string) : imagenet_info :=
  {| filename := f; label := label t; numeric_label := numeric_label t |}.
Definition set_label (t : imagenet_info) (l : string) : imagenet_info :=
  {| filename := filename t; label := l; numeric_label := numeric_label t |}.
Definition incr_numeric_label (t : imagenet_info) : imagenet_info :=
  {| filename := filename t; label := label t;
     numeric_label := wrap (numeric_label t + 1) |}.

Definition extract_desc_class (dir_name : string) : result string :=
  let underscore_pos := find dir_name "_"%char in
  substr dir_name (wrap (underscore_pos + 1)).

(** The guard of the inner loop:
    [name.size() > 4 && tolower(name.substr(name.size() - 4)) == ".jpg"]. *)
Definition is_jpg (name : string) : result bool :=
  if 4 <? size name then
    ext ← substr name (wrap (size name - 4));
    mret (String.eqb (tolower ext) ".jpg")
  else mret false.

(** [for (auto image_file : subdir.get_files())] *)
Fixpoint scan_files (files : list file) (temp : imagenet_info)
    (results : list imagenet_info)
  : result (imagenet_info * list imagenet_info) :=
  match files with
  | [] => mret (temp, results)
  | image_file :: rest =>
      keep ← is_jpg (file_name image_file);
      if keep : bool then
        let temp' := set_filename temp (file_full_name image_file) in
        scan_files rest temp' (results ++ [temp'])
      else scan_files rest temp results
  end.

(** [for (auto subdir : subdirs)] *)
Fixpoint scan_dirs (subdirs : list directory) (temp : imagenet_info)
    (results : list imagenet_info)
  : result (imagenet_info * list imagenet_info) :=
  match subdirs with
  | [] => mret (temp, results)
  | subdir :: rest =>
      desc ← extract_desc_class (dir_name subdir);
      '(temp', results') ← scan_files (get_files subdir) (set_label temp desc) results;
      scan_dirs rest (incr_numeric_label temp') results'
  end.

(** The comparator handed to [std::sort]. *)
Definition name_less (a b : directory) : bool :=
  String.ltb (dir_name a) (dir_name b).

(** [std::sort] leaves the range ordered so that no element compares less
    than one before it; the model sorts with "not [b < a]". *)
Definition not_after (a b : directory) : Prop := name_less b a = false.

Global Instance not_after_dec a b : Decision (not_after a b).
Proof. unfold not_after. apply _. Defined.

Definition sort_dirs (subdirs : list directory) : list directory :=
  merge_sort not_after subdirs.

Definition initial_temp : imagenet_info :=
  {| filename := ""; label := ""; numeric_label := 0 |}.

Definition get_imagenet_listing (fs : filesystem) (images_folder : string)
  : result (list imagenet_info) :=
  root ← open_directory fs images_folder;
  let subdirs := sort_dirs (get_dirs root) in
  '(_, results) ← scan_dirs subdirs initial_temp [];
  mret results.

End Scanner.

Import Scanner.

(** ** Images ([dlib/matrix.h], [dlib/image_io.h], [dlib/image_transforms.h]) *)

Module Imaging.

Record rgb_pixel : Type := RgbPixel { red : Byte.byte; green : Byte.byte; blue : Byte.byte }.

(** [matrix<rgb_pixel>]: dimensions and the pixels in row-major order. *)
Record matrix : Type := Matrix { nr : Z; nc : Z; pixels : list rgb_pixel }.

Definition empty_matrix : matrix := {| nr := 0; nc := 0; pixels := [] |}.

Inductive interpolation : Type :=
| interpolate_nearest_neighbor
| interpolate_bilinear
| interpolate_quadratic.

(** The imaging library as the program sees it.
    [load_image] decodes the file at a path ([inr]) or throws ([inl]).
    [resample src rows cols how r c] is the pixel that [resize_image]
    stores at position [(r, c)] of a [rows] by [cols] destination. *)
Record library : Type := Library {
  load_image : string -> exception + matrix;
  resample : matrix -> Z -> Z -> interpolation -> Z -> Z -> rgb_pixel
}.

(** Calls made into the library, in order. *)
Inductive call : Type :=
| CallLoadImage (path : string)
| CallResizeImage (src : matrix) (rows cols : Z) (how : interpolation)
| CallAssignImage.

(** [matrix<rgb_pixel> m(rows, cols)]; the constructor requires
    non-negative dimensions. *)
Definition matrix_new (rows cols : Z) : result unit :=
  if (0 <=? rows) && (0 <=? cols) then Ok tt
  else Throw (dlib_error "matrix: rows >= 0 && cols >= 0").

(** [resize_image(src, dst, how)] writes every pixel of the destination,
    whose dimensions stay as constructed. *)
Definition resize_image (lib : library) (src : matrix) (rows cols : Z)
    (how : interpolation) : matrix :=
  {| nr := rows; nc := cols;
     pixels := r ← seqZ 0 rows; c ← seqZ 0 cols;
               [resample lib src rows cols how r c] |}.

Definition load_and_resize_image (lib : library) (filename : string)
    (rows cols : Z) : list call * result matrix :=
  match load_image lib filename with
  | inr img =>
      if negb (nr img =? rows) || negb (nc img =? cols) then
        match matrix_new rows cols with
        | Ok _ =>
            let resized := resize_image lib img rows cols interpolate_bilinear in
            ([CallLoadImage filename;
              CallResizeImage img rows cols interpolate_bilinear;
              CallAssignImage],
             Ok resized)
        | Throw e => ([CallLoadImage filename], Throw e)
        | Undefined => ([CallLoadImage filename], Undefined)
        end
      else ([CallLoadImage filename], Ok img)
  | inl e => ([CallLoadImage filename], Throw e)
  end.

End Imaging.

Import Imaging.

(** ** The serialized stream ([dlib/serialize.h]) *)

Module Serialization.

Abbreviation byte := Byte.byte.

(** The interface that [serialize(item, out)] and [deserialize(item, in)]
    overloads give a type.  [deserialize] consumes a prefix of the stream
    and returns what is left.  [representable] singles out the values the
    encoder writes without loss. *)
Class Serializable (T : Type) : Type := {
  serialize : T -> list byte;
  deserialize : list byte -> result (T * list byte);
  representable : T -> Prop
}.

(** The contract between an encoder and its decoder. *)
Class Lawful (T : Type) `{Serializable T} : Prop :=
  deserialize_serialize :
    forall (x : T) (rest : list byte),
      representable x -> deserialize (serialize x ++ rest) = Ok (x, rest).

Section vector.
Context {ulong_codec : Serializable Z} {T : Type} {item_codec : Serializable T}.

(** Read [n] items one after the other. *)
Fixpoint deserialize_items (n : nat) (s : list byte) : result (list T * list byte) :=
  match n with
  | O => mret ([], s)
  | S n' =>
      '(x, s1) ← deserialize s;
      '(xs, s2) ← deserialize_items n' s1;
      mret (x :: xs, s2)
  end.

(** Modelled from the spec: a [std::vector] is written as a
    length-prefixed sequence, the element count as an unsigned integer
    followed by the elements in order (the encoder itself belongs to the
    serialization library and is not part of the program text). *)
Definition vector_codec : Serializable (list T) := {|
  serialize l := serialize (Z.of_nat (length l)) ++ (x ← l; serialize x);
  deserialize s := '(n, s1) ← deserialize s; deserialize_items (Z.to_nat n) s1;
  representable l := representable (Z.of_nat (length l)) /\ Forall representable l
|}.
End vector.

(** The regular files of the disk, by path. *)
Abbreviation disk := (gmap string (list byte)).

(** [deserialize(filename)]: the stream of an existing file. *)
Definition open_for_reading (d : disk) (path : string) : result (list byte) :=
  match d !! path with
  | Some content => Ok content
  | None => Throw (serialization_error ("Unable to open " ++ path ++ " for reading."))
  end.

End Serialization.

Import Serialization.

(** ** The dataset *)

Record imagenet_dataset : Type := ImagenetDataset {
  images : list matrix;
  labels : list string;
  numeric_labels : list Z
}.

Definition empty_dataset : imagenet_dataset :=
  {| images := []; labels := []; numeric_labels := [] |}.

(** The three encoders the program relies on: pixel matrices, strings and
    [unsigned long]. *)
Class Codecs : Type := {
  matrix_codec : Serializable matrix;
  string_codec : Serializable string;
  ulong_codec : Serializable Z
}.

Class LawfulCodecs (C : Codecs) : Prop := {
  matrix_lawful : @Lawful matrix matrix_codec;
  string_lawful : @Lawful string string_codec;
  ulong_lawful : @Lawful Z ulong_codec
}.

(** [out << dataset.images << dataset.labels << dataset.numeric_labels] *)
Definition write_dataset `{Codecs} (ds : imagenet_dataset) : list byte :=
  let out := [] in
  let out := out ++ @serialize _ (@vector_codec ulong_codec _ matrix_codec) (images ds) in
  let out := out ++ @serialize _ (@vector_codec ulong_codec _ string_codec) (labels ds) in
  let out := out ++ @serialize _ (@vector_codec ulong_codec _ ulong_codec) (numeric_labels ds) in
  out.

(** [in >> dataset.images >> dataset.labels >> dataset.numeric_labels] *)
Definition read_dataset `{Codecs} (s : list byte) : result imagenet_dataset :=
  '(imgs, s) ← @deserialize _ (@vector_codec ulong_codec _ matrix_codec) s;
  '(lbls, s) ← @deserialize _ (@vector_codec ulong_codec _ string_codec) s;
  '(nums, s) ← @deserialize _ (@vector_codec ulong_codec _ ulong_codec) s;
  mret {| images := imgs; labels := lbls; numeric_labels := nums |}.

(** The datasets the stream holds without loss. *)
Definition representable_dataset `{Codecs} (ds : imagenet_dataset) : Prop :=
  @representable _ (@vector_codec ulong_codec _ matrix_codec) (images ds) /\
  @representable _ (@vector_codec ulong_codec _ string_codec) (labels ds) /\
  @representable _ (@vector_codec ulong_codec _ ulong_codec) (numeric_labels ds).

(** ** Dataset builder *)

Module Builder.

(** What the builder prints. *)
Inductive log_entry : Type :=
| LogScanning
| LogTotalFound (n : Z)
| LogLoading
| LogProgress (done total : Z)
| LogImageError (path : string) (e : exception)
| LogSaving (path : string)
| LogSaved.

(** The surroundings of a run.  [terminate_flag_at i] is the value that
    [g_terminate_flag.load()] returns in the loop condition evaluated
    before iteration [i]; the interrupt handler sets the flag from outside
    the loop.  [can_write] tells whether a path can be opened for
    writing. *)
Record environment : Type := Environment {
  fs : filesystem;
  lib : library;
  terminate_flag_at : nat -> bool;
  can_write : string -> bool
}.

Record loop_state : Type := LoopState {
  loop_i : nat;
  dataset : imagenet_dataset;
  log : list log_entry
}.

(** The three [push_back] calls of a successful iteration. *)
Definition push_sample (ds : imagenet_dataset) (img : matrix) (info : imagenet_info)
  : imagenet_dataset :=
  let ds := {| images := images ds ++ [img]; labels := labels ds;
               numeric_labels := numeric_labels ds |} in
  let ds := {| images := images ds; labels := labels ds ++ [label info];
               numeric_labels := numeric_labels ds |} in
  {| images := images ds; labels := labels ds;
     numeric_labels := numeric_labels ds ++ [numeric_label info] |}.

(** [try { ... } catch (const std::exception& e) { ... }] *)
Definition try_catch {A : Type} (body : result A) (handler : exception -> A) : result A :=
  match body with
  | Throw e => Ok (handler e)
  | other => other
  end.

Definition progress (i : nat) (total : nat) : list log_entry :=
  if ((Z.of_nat i + 1) mod 1000 =? 0) || (Z.of_nat i =? Z.of_nat total - 1)
  then [LogProgress (Z.of_nat i + 1) (Z.of_nat total)] else [].

(** The body of the ingestion loop at index [loop_i st]. *)
Definition loop_body (env : environment) (total : nat) (rows cols : Z)
    (info : imagenet_info) (st : loop_state) : result loop_state :=
  let i := loop_i st in
  try_catch
    (img ← snd (load_and_resize_image (lib env) (filename info) rows cols);
     mret {| loop_i := S i;
             dataset := push_sample (dataset st) img info;
             log := log st ++ progress i total |})
    (fun e => {| loop_i := S i;
                 dataset := dataset st;
                 log := log st ++ [LogImageError (filename info) e] |}).

(** One turn of
    [for (i = 0; i < image_listing.size() && !g_terminate_flag.load(); ++i)]:
    [None] when the condition is false. *)
Definition loop_step (env : environment) (listing : list imagenet_info)
    (rows cols : Z) (st : loop_state) : result (option loop_state) :=
  match listing !! loop_i st with
  | None => mret None
  | Some info =>
      if terminate_flag_at env (loop_i st) then mret None
      else st' ← loop_body env (length listing) rows cols info st; mret (Some st')
  end.

Fixpoint loop_run (env : environment) (listing : list imagenet_info)
    (rows cols : Z) (fuel : nat) (st : loop_state) : result loop_state :=
  match fuel with
  | O => mret st
  | S fuel' =>
      next ← loop_step env listing rows cols st;
      match next with
      | None => mret st
      | Some st' => loop_run env listing rows cols fuel' st'
      end
  end.

Definition initial_state (log0 : list log_entry) : loop_state :=
  {| loop_i := 0; dataset := empty_dataset; log := log0 |}.

(** [serialize(output_file) << ...]: open, write the three sequences,
    close. *)
Definition save_dataset `{Codecs} (env : environment) (d : disk)
    (output_file : string) (ds : imagenet_dataset) : disk * result unit :=
  if can_write env output_file
  then (<[output_file := write_dataset ds]> d, Ok tt)
  else (d, Throw (serialization_error
                    ("Unable to open " ++ output_file ++ " for writing."))).

(** The builder: final disk and either the printed log or the exception
    that left the function. *)
Definition create_imagenet_dataset `{Codecs} (env : environment) (d : disk)
    (images_folder output_file : string) (resize_rows resize_cols : Z)
  : disk * result (list log_entry) :=
  match get_imagenet_listing (fs env) images_folder with
  | Throw e => (d, Throw e)
  | Undefined => (d, Undefined)
  | Ok image_listing =>
      if decide (image_listing = [])
      then (d, Throw (dlib_error ("No images found in directory: " ++ images_folder)))
      else
        let log0 := [LogScanning; LogTotalFound (Z.of_nat (length image_listing));
                     LogLoading] in
        match loop_run env image_listing resize_rows resize_cols
                       (length image_listing) (initial_state log0) with
        | Throw e => (d, Throw e)
        | Undefined => (d, Undefined)
        | Ok st =>
            match save_dataset env d output_file (dataset st) with
            | (d', Ok _) => (d', Ok (log st ++ [LogSaving output_file; LogSaved]))
            | (d', Throw e) => (d', Throw e)
            | (d', Undefined) => (d', Undefined)
            end
        end
  end.

End Builder.

(** ** Dataset splitter *)

Module Splitter.

(** IEEE 754 binary64, round to nearest even. *)
Definition double : Type := spec_float.
Definition prec : Z := 53.
Definition emax : Z := 1024.

Definition double_one : double := S754_finite false 4503599627370496 (-52).
Definition double_sub (x y : double) : double := SFsub prec emax x y.
Definition double_mul (x y : double) : double := SFmul prec emax x y.

(** Conversion of a [size_t] operand to [double]. *)
Definition double_of_size_t (n : Z) : double := binary_normalize prec emax n 0 false.

(** [static_cast<size_t>(d)]: truncation toward zero, undefined when the
    truncated value is not a [size_t]. *)
Definition size_t_of_double (d : double) : result Z :=
  match d with
  | S754_zero _ => Ok 0
  | S754_finite s m e =>
      let t := Z.shiftl (Z.pos m) e in
      if s then (if t =? 0 then Ok 0 else Undefined)
      else if t <? SIZE_MODULUS then Ok t else Undefined
  | S754_infinity _ | S754_nan => Undefined
  end.

(** [static_cast<size_t>(dataset.images.size() * (1.0 - test_fraction))] *)
Definition compute_split_point (n : Z) (test_fraction : double) : result Z :=
  size_t_of_double (double_mul (double_of_size_t n) (double_sub double_one test_fraction)).

(** The surroundings of a call.  [shuffle] is what [std::shuffle] does
    with the generator seeded from [std::random_device]; the two bounds
    are [max_size()] of the image and label vectors. *)
Record environment : Type := Environment {
  shuffle : list Z -> list Z;
  max_size_images : Z;
  max_size_labels : Z
}.

(** [v.reserve(n)] *)
Definition reserve (max_size n : Z) : result unit :=
  if max_size <? n then Throw length_error else Ok tt.

(** Unchecked [v[i]]. *)
Definition at_index {A : Type} (v : list A) (i : Z) : result A :=
  if i <? 0 then Undefined
  else match v !! Z.to_nat i with
       | Some x => Ok x
       | None => Undefined
       end.

Record split : Type := Split {
  training_images : list matrix;
  training_labels : list Z;
  testing_images : list matrix;
  testing_labels : list Z
}.

Definition empty_split : split :=
  {| training_images := []; training_labels := [];
     testing_images := []; testing_labels := [] |}.

(** [for (size_t i = 0; i < indices.size(); ++i)], entered at position [i]
    with [indices] the part of the vector still to visit. *)
Fixpoint split_loop (ds : imagenet_dataset) (split_point : Z)
    (indices : list Z) (i : Z) (out : split) : result split :=
  match indices with
  | [] => mret out
  | idx :: rest =>
      img ← at_index (images ds) idx;
      lbl ← at_index (numeric_labels ds) idx;
      let out' :=
        if i <? split_point then
          {| training_images := training_images out ++ [img];
             training_labels := training_labels out ++ [lbl];
             testing_images := testing_images out;
             testing_labels := testing_labels out |}
        else
          {| training_images := training_images out;
             training_labels := training_labels out;
             testing_images := testing_images out ++ [img];
             testing_labels := testing_labels out ++ [lbl] |} in
      split_loop ds split_point rest (i + 1) out'
  end.

(** Everything after the stream has been read. *)
Definition split_dataset (env : environment) (ds : imagenet_dataset)
    (test_fraction : double) : result split :=
  let n := Z.of_nat (length (images ds)) in
  let indices := seqZ 0 n in
  let indices := shuffle env indices in
  split_point ← compute_split_point n test_fraction;
  _ ← reserve (max_size_images env) split_point;
  _ ← reserve (max_size_labels env) split_point;
  _ ← reserve (max_size_images env) (wrap (n - split_point));
  _ ← reserve (max_size_labels env) (wrap (n - split_point));
  split_loop ds split_point indices 0 empty_split.

Definition load_stable_imagenet_1k `{Codecs} (env : environment) (d : disk)
    (dataset_file : string) (test_fraction : double) : result split :=
  s ← open_for_reading d dataset_file;
  ds ← read_dataset s;
  split_dataset env ds test_fraction.

(** The value of a finite [double] as a rational. *)
Definition Q_of_double (d : double) : Q :=
  match d with
  | S754_finite s m e =>
      let mag := if 0 <=? e then inject_Z (Z.pos m * 2 ^ e)
                 else Qmake (Z.pos m) (Z.to_pos (2 ^ (- e))) in
      if s then Qopp mag else mag
  | _ => 0%Q
  end.

(** The split point of the specification:
    [floor(N * (1 - testFraction))] over the rationals. *)
Definition exact_split_point (n : Z) (test_fraction : Q) : Z :=
  Qfloor (Qmult (inject_Z n) (Qminus 1%Q test_fraction)).

End Splitter.

(** ** A concrete stream format *)

Module Wire.

Definition byte_of_Z (z : Z) : byte :=
  default Byte.x00 (Byte.of_N (Z.to_N (z mod 256))).

Definition Z_of_byte (b : byte) : Z := Z.of_N (Byte.to_N b).

(** The bytes of [item], least significant first, stopping at the last
    non-zero byte and after at most [fuel] bytes. *)
Fixpoint pack_payload (fuel : nat) (item : Z) : list byte :=
  match fuel with
  | O => []
  | S fuel' =>
      byte_of_Z (Z.land item 255) ::
      (if Z.shiftr item 8 =? 0 then [] else pack_payload fuel' (Z.shiftr item 8))
  end.

Fixpoint unpack_payload (payload : list byte) : Z :=
  match payload with
  | [] => 0
  | b :: rest => Z.lor (Z_of_byte b) (Z.shiftl (unpack_payload rest) 8)
  end.

Definition truncated {A : Type} : result A :=
  Throw (serialization_error "Error deserializing: unexpected end of stream").

(** Read exactly [n] bytes. *)
Definition read_bytes (n : nat) (s : list byte) : result (list byte * list byte) :=
  if (length s <? n)%nat then truncated else Ok (take n s, drop n s).

(** Modelled from the spec: unsigned integers are written in a
    self-describing form, a byte holding the number of payload bytes
    followed by the payload (the integer encoder of the serialization
    library is not part of the program text). *)
Definition ulong_wire : Serializable Z := {|
  serialize item :=
    let payload := pack_payload 8 item in
    byte_of_Z (Z.of_nat (length payload)) :: payload;
  deserialize s :=
    match s with
    | [] => truncated
    | control :: s' =>
        let n := Z_of_byte control in
        if (n <? 1) || (8 <? n)
        then Throw (serialization_error "Error deserializing: corrupt integer")
        else '(payload, s'') ← read_bytes (Z.to_nat n) s';
             mret (unpack_payload payload, s'')
    end;
  representable item := 0 <= item < SIZE_MODULUS
|}.

(** Modelled from the spec: a string is written as its length followed by
    its bytes (section 6: a length-prefixed sequence of strings). *)
Definition string_wire : Serializable string := {|
  serialize str :=
    @serialize _ ulong_wire (Std.size str) ++ list_byte_of_string str;
  deserialize s :=
    '(n, s') ← @deserialize _ ulong_wire s;
    '(chars, s'') ← read_bytes (Z.to_nat n) s';
    mret (string_of_list_byte chars, s'');
  representable str := Std.size str < SIZE_MODULUS
|}.

Definition pixel_wire : Serializable rgb_pixel := {|
  serialize p := [red p; green p; blue p];
  deserialize s :=
    match s with
    | r :: g :: b :: s' => Ok ({| red := r; green := g; blue := b |}, s')
    | _ => truncated
    end;
  representable _ := True
|}.

(** Modelled from the spec: a pixel matrix is written as its two
    dimensions followed by its pixels in row-major order, three channel
    bytes each (section 6: fixed-size 3-channel pixel matrices). *)
Definition matrix_wire : Serializable matrix := {|
  serialize m :=
    @serialize _ ulong_wire (nr m) ++ @serialize _ ulong_wire (nc m) ++
    (p ← pixels m; @serialize _ pixel_wire p);
  deserialize s :=
    '(rows, s) ← @deserialize _ ulong_wire s;
    '(cols, s) ← @deserialize _ ulong_wire s;
    '(px, s) ← @deserialize_items _ pixel_wire (Z.to_nat (rows * cols)) s;
    mret ({| nr := rows; nc := cols; pixels := px |}, s);
  representable m :=
    0 <= nr m < SIZE_MODULUS /\ 0 <= nc m < SIZE_MODULUS /\
    length (pixels m) = Z.to_nat (nr m * nc m)
|}.

Definition codecs : Codecs := {|
  matrix_codec := matrix_wire;
  string_codec := string_wire;
  ulong_codec := ulong_wire
|}.

End Wire.

(** ** Vocabulary of the statements *)

Module Spec.

(** What [extract_desc_class] yields when it returns. *)
Definition description (dir_name : string) : string :=
  drop_chars (Z.to_nat (wrap (find dir_name "_"%char + 1))) dir_name.

(** The guard of the scanner's inner loop as a boolean. *)
Definition accepted (name : string) : bool :=
  (4 <? size name) &&
  String.eqb (tolower (drop_chars (Z.to_nat (wrap (size name - 4))) name)) ".jpg".

(** "The name ends with [.jpg], compared case-insensitively". *)
Definition ends_with_jpg (name : string) : Prop :=
  exists stem ext : string, name = (stem ++ ext)%string /\ tolower ext = ".jpg"%string.

(** Zero-based rank of a subdirectory among its siblings: how many of
    them have a name that compares less. *)
Definition rank (siblings : list directory) (d : directory) : Z :=
  Z.of_nat (length (filter (fun d' => name_less d' d = true) siblings)).

(** The records a class subdirectory contributes under label [lbl]. *)
Definition records_of (d : directory) (lbl : Z) : list imagenet_info :=
  (fun f => {| filename := file_full_name f;
               label := description (dir_name d);
               numeric_label := lbl |})
    <$> filter (fun f => accepted (file_name f) = true) (get_files d).

(** No character of the string is an underscore. *)
Definition no_underscore (s : string) : Prop :=
  Forall (fun c => c <> "_"%char) (list_ascii_of_string s).

(** The three sequences of a dataset have the same length. *)
Definition consistent (ds : imagenet_dataset) : Prop :=
  length (images ds) = length (labels ds) /\
  length (labels ds) = length (numeric_labels ds).

(** The states the ingestion loop goes through: the state at loop entry
    and every state a completed iteration leaves. *)
Inductive reachable (env : Builder.environment) (listing : list imagenet_info)
    (rows cols : Z) (log0 : list Builder.log_entry) : Builder.loop_state -> Prop :=
| reachable_entry :
    reachable env listing rows cols log0 (Builder.initial_state log0)
| reachable_iteration st st' :
    reachable env listing rows cols log0 st ->
    Builder.loop_step env listing rows cols st = Ok (Some st') ->
    reachable env listing rows cols log0 st'.

(** What ingesting one record adds to a dataset: a sample when its image
    loads, nothing otherwise. *)
Definition ingest_one (lib : library) (rows cols : Z) (ds : imagenet_dataset)
    (info : imagenet_info) : imagenet_dataset :=
  match snd (load_and_resize_image lib (filename info) rows cols) with
  | Ok img => Builder.push_sample ds img info
  | _ => ds
  end.

(** The dataset that ingesting the given records one after the other
    accumulates. *)
Definition ingested (lib : library) (rows cols : Z) (records : list imagenet_info)
  : imagenet_dataset :=
  foldl (ingest_one lib rows cols) empty_dataset records.

(** The elements of [v] at the given indices, in the order of the
    indices. *)
Definition select {A : Type} (v : list A) (indices : list Z) : list A :=
  omap (fun i => if i <? 0 then None else v !! Z.to_nat i) indices.

(** The [double] nearest to the fraction [p / q], as a decimal literal of
    that value denotes it. *)
Definition nearest_double (p q : Z) : Splitter.double :=
  SFdiv Splitter.prec Splitter.emax
    (Splitter.double_of_size_t p) (Splitter.double_of_size_t q).

(** [i] is a valid index into [v]. *)
Definition in_bounds {A : Type} (v : list A) (i : Z) : Prop :=
  0 <= i < Z.of_nat (length v).

(** The split of [ds] along a shuffled index vector cut at [sp]: the
    samples at the first [sp] indices, then the samples at the others,
    each part in the order of the indices. *)
Definition split_at (ds : imagenet_dataset) (shuffled : list Z) (sp : Z)
  : Splitter.split :=
  {| Splitter.training_images := select (images ds) (take (Z.to_nat sp) shuffled);
     Splitter.training_labels := select (numeric_labels ds) (take (Z.to_nat sp) shuffled);
     Splitter.testing_images := select (images ds) (drop (Z.to_nat sp) shuffled);
     Splitter.testing_labels := select (numeric_labels ds) (drop (Z.to_nat sp) shuffled) |}.

End Spec.

(** ** Sample inputs *)

Module Samples.

(** A root with three class subdirectories, enumerated out of order; one
    holds no image, one has a name without separator. *)
Definition sample_root : directory :=
  Directory "train" []
    [ Directory "n002_dog"
        [File "d1.jpg" "train/n002_dog/d1.jpg"; File "notes.txt" "train/n002_dog/notes.txt";
         File "d2.JPG" "train/n002_dog/d2.JPG"] [];
      Directory "n000_empty" [File "readme.md" "train/n000_empty/readme.md"] [];
      Directory "misc" [File "m.jpg" "train/misc/m.jpg"] [];
      Directory "n001_cat"
        [File "c1.jpg" "train/n001_cat/c1.jpg"; File ".jpg" "train/n001_cat/.jpg"] [] ].

Definition sample_fs : filesystem :=
  fun path => if String.eqb path "train" then Some sample_root else None.

(** A class subdirectory whose only file is named [.jpg]. *)
Definition bare_suffix_fs : filesystem :=
  fun path =>
    if String.eqb path "train"
    then Some (Directory "train" []
                 [Directory "n001_cat" [File ".jpg" "train/n001_cat/.jpg"] []])
    else None.

Definition grey (v : Byte.byte) : rgb_pixel := {| red := v; green := v; blue := v |}.

(** A decoded image of one row and two columns. *)
Definition sample_image : matrix :=
  {| nr := 1; nc := 2; pixels := [grey Byte.x10; grey Byte.x20] |}.

(** A library whose decoder fails on one file of [sample_root] and whose
    resampler repeats the first pixel of the source. *)
Definition sample_lib : library := {|
  load_image path :=
    if String.eqb path "train/n002_dog/d1.jpg"
    then inl (image_load_error path) else inr sample_image;
  resample src rows cols how r c := default (grey Byte.x00) (pixels src !! 0%nat)
|}.

(** A run in which the flag is first seen set before iteration
    [cancel_at]. *)
Definition sample_env (cancel_at : nat) : Builder.environment := {|
  Builder.fs := sample_fs;
  Builder.lib := sample_lib;
  Builder.terminate_flag_at i := bool_decide (cancel_at <= i)%nat;
  Builder.can_write path := true
|}.

(** The listing of [sample_root]. *)
Definition sample_listing : list imagenet_info :=
  [ {| filename := "train/misc/m.jpg"; label := "misc"; numeric_label := 0 |};
    {| filename := "train/n001_cat/c1.jpg"; label := "cat"; numeric_label := 2 |};
    {| filename := "train/n002_dog/d1.jpg"; label := "dog"; numeric_label := 3 |};
    {| filename := "train/n002_dog/d2.JPG"; label := "dog"; numeric_label := 3 |} ].

(** A stored dataset of three samples. *)
Definition sample_dataset : imagenet_dataset :=
  {| images := [sample_image; Imaging.empty_matrix; sample_image];
     labels := ["misc"; "cat"; "dog"]%string;
     numeric_labels := [0; 2; 3] |}.

(** Twenty samples numbered by their position. *)
Definition twenty_samples : imagenet_dataset :=
  {| images := replicate 20 sample_image;
     labels := replicate 20 "misc"%string;
     numeric_labels := seqZ 0 20 |}.

(** A splitter whose shuffle reverses the index vector. *)
Definition sample_split_env : Splitter.environment := {|
  Splitter.shuffle := reverse;
  Splitter.max_size_images := 2 ^ 58;
  Splitter.max_size_labels := 2 ^ 60 - 1
|}.

End Samples.

(** ** The interrupt flag *)

Module Interrupt.

Definition SIGINT : Z := 2.

(** [signal_handler(int signal)] acting on [g_terminate_flag]: the store
    of [true] happens for [SIGINT] only. *)
Definition signal_handler (signal : Z) (g_terminate_flag : bool) : bool :=
  if signal =? SIGINT then true else g_terminate_flag.

(** The flag after the handler has run for each delivered signal in
    turn; nothing else in the program writes the flag. *)
Definition flag_after (delivered : list Z) (g_terminate_flag : bool) : bool :=
  foldl (fun flag signal => signal_handler signal flag) g_terminate_flag delivered.

(** [deliveries i] lists the signals delivered after the loop condition
    was evaluated for iteration [i - 1] (or after start-up, for [i = 0])
    and before it is evaluated for iteration [i].  The flag starts out
    [false]. *)
Definition terminate_flag_of (deliveries : nat -> list Z) (i : nat) : bool :=
  flag_after (i' ← seq 0 (S i); deliveries i') false.

End Interrupt.

(** ** Further vocabulary *)

Module Terms.

(** The image that a record contributes, if its file loads. *)
Definition loaded (lib : library) (rows cols : Z) (info : imagenet_info)
  : option matrix :=
  match snd (load_and_resize_image lib (filename info) rows cols) with
  | Ok img => Some img
  | _ => None
  end.

(** A subdirectory holds no file that the scanner accepts. *)
Definition holds_no_image (d : directory) : Prop :=
  Forall (fun f => Spec.accepted (file_name f) = false) (get_files d).

End Terms.

(** ** The program entry point *)

Module Driver.

(** [std::stol] failures. *)
Inductive stol_error : Type :=
| invalid_argument
| stol_out_of_range.

Definition LONG_MAX : Z := 2 ^ 63 - 1.
Definition LONG_MIN : Z := - 2 ^ 63.

(** [isspace] in the C locale. *)
Definition is_space (c : ascii) : bool :=
  let n := N_of_ascii c in
  ((n =? 32) || ((9 <=? n) && (n <=? 13)))%N.

Fixpoint skip_spaces (s : string) : string :=
  match s with
  | String c s' => if is_space c then skip_spaces s' else s
  | EmptyString => s
  end.

Definition digit_value (c : ascii) : option Z :=
  let n := N_of_ascii c in
  if ((48 <=? n) && (n <=? 57))%N then Some (Z.of_N n - 48) else None.

(** The value of the longest prefix of decimal digits; [acc] is [None]
    until a digit has been read. *)
Fixpoint parse_digits (s : string) (acc : option Z) : option Z :=
  match s with
  | String c s' =>
      match digit_value c with
      | Some v => parse_digits s' (Some (10 * default 0 acc + v))
      | None => acc
      end
  | EmptyString => acc
  end.

(** [std::stol(str)]: optional white space, optional sign, decimal
    digits; what follows the digits is ignored.  Throws
    [std::invalid_argument] when there is no digit and
    [std::out_of_range] when the value is not a [long]. *)
Definition stol (str : string) : stol_error + Z :=
  let s := skip_spaces str in
  let '(negative, s) :=
    match s with
    | String "-" s' => (true, s')
    | String "+" s' => (false, s')
    | _ => (false, s)
    end in
  match parse_digits s None with
  | None => inl invalid_argument
  | Some magnitude =>
      let v := if negative : bool then - magnitude else magnitude in
      if (v <? LONG_MIN) || (LONG_MAX <? v) then inl stol_out_of_range else inr v
  end.

(** Calls on the preview window and the wait for the enter key. *)
Inductive ui_event : Type :=
| SetImage (img : matrix)
| SetTitle (title : string)
| CinIgnore.

(** Decimal digits of a small count ([std::to_string(i + 1)]). *)
Definition to_string (n : nat) : string := pretty.pretty (N.of_nat n).

(** One turn of a preview loop, at index [i]. *)
Definition show_one (title : string) (imgs : list matrix) (lbls : list Z) (i : nat)
  : result (list ui_event) :=
  _ ← Splitter.at_index lbls (Z.of_nat i);
  img ← Splitter.at_index imgs (Z.of_nat i);
  mret [SetImage img; SetTitle (title ++ to_string (i + 1)); CinIgnore].

Fixpoint show_from (title : string) (imgs : list matrix) (lbls : list Z)
    (i count : nat) : result (list ui_event) :=
  match count with
  | O => mret []
  | S count' =>
      events ← show_one title imgs lbls i;
      more ← show_from title imgs lbls (S i) count';
      mret (events ++ more)
  end.

(** [num_to_show = std::min((size_t)3, images.size())] followed by the
    loop over the first [num_to_show] images. *)
Definition preview (title : string) (imgs : list matrix) (lbls : list Z)
  : result (list ui_event) :=
  let num_to_show := (3 `min` length imgs)%nat in
  show_from title imgs lbls 0 num_to_show.

(** The default of the [test_fraction] parameter, the [double] denoted
    by [0.05]. *)
Definition default_test_fraction : Splitter.double :=
  S754_finite false 7205759403792794 (-57).

(** The surroundings of a run; [window_opens] tells whether
    [dlib::image_window] can be constructed (it throws otherwise). *)
Record environment : Type := Environment {
  build_env : Builder.environment;
  split_env : Splitter.environment;
  window_opens : bool
}.

Record outcome : Type := Outcome { exit_code : Z; shown : list ui_event }.

Definition failure : outcome := {| exit_code := 1; shown := [] |}.

(** [main(argc, argv)]: the final disk and, unless the behaviour is
    undefined, the exit code with what the preview showed.  Every
    exception is caught by the handler of [main], which returns 1.  The
    installation of the interrupt handler is the link between
    [Interrupt.terminate_flag_of] and the flag the builder reads; the
    lines printed to the console are left out. *)
Definition main `{Codecs} (env : environment) (d : disk) (argv : list string)
  : disk * result outcome :=
  match argv with
  | [_; image_directory; output_file; size_arg] =>
      match stol size_arg with
      | inl _ => (d, Ok failure)
      | inr image_size =>
          match Builder.create_imagenet_dataset (build_env env) d
                  image_directory output_file image_size image_size with
          | (d', Throw _) => (d', Ok failure)
          | (d', Undefined) => (d', Undefined)
          | (d', Ok _) =>
              match Splitter.load_stable_imagenet_1k (split_env env) d' output_file
                      default_test_fraction with
              | Throw _ => (d', Ok failure)
              | Undefined => (d', Undefined)
              | Ok out =>
                  if window_opens env then
                    match
                      (training ← preview "Training Image #"
                                   (Splitter.training_images out)
                                   (Splitter.training_labels out);
                       testing ← preview "Testing Image #"
                                   (Splitter.testing_images out)
                                   (Splitter.testing_labels out);
                       mret (training ++ testing))
                    with
                    | Ok events => (d', Ok {| exit_code := 0; shown := events |})
                    | Throw _ => (d', Ok failure)
                    | Undefined => (d', Undefined)
                    end
                  else (d', Ok failure)
              end
          end
      end
  | _ => (d, Ok failure)
  end.

Definition is_set_image (e : ui_event) : bool :=
  match e with SetImage _ => true | _ => false end.

(** The number of images a preview put on the window. *)
Definition images_shown (events : list ui_event) : nat :=
  length (filter (fun e => is_set_image e = true) events).

End Driver.

Import Spec Samples Terms.

(** * Properties *)

(** ** The result monad *)

Lemma bind_Ok {A B : Type} (f : A -> result B) (a : A) : (Ok a ≫= f) = f a.
Proof. reflexivity. Qed.

Lemma bind_Ok_inv {A B : Type} (f : A -> result B) (m : result A) (b : B) :
  (m ≫= f) = Ok b -> exists a, m = Ok a /\ f a = Ok b.
Proof. destruct m as [a| |]; simpl; intros H; try discriminate; eauto. Qed.

(** ** Strings *)

Section string_order.

Lemma ascii_compare_refl a : Ascii.compare a a = Eq.
Proof. unfold Ascii.compare. apply N.compare_refl. Qed.

Lemma ascii_compare_lt_trans a b c :
  Ascii.compare a b = Lt -> Ascii.compare b c = Lt -> Ascii.compare a c = Lt.
Proof.
  unfold Ascii.compare. rewrite !N.compare_lt_iff. apply N.lt_trans.
Qed.

Lemma string_compare_refl s : String.compare s s = Eq.
Proof.
  induction s as [|a s IH]; simpl; [reflexivity|].
  now rewrite ascii_compare_refl.
Qed.

Lemma string_compare_lt_trans s1 : forall s2 s3,
  String.compare s1 s2 = Lt -> String.compare s2 s3 = Lt ->
  String.compare s1 s3 = Lt.
Proof.
  induction s1 as [|a s1 IH]; intros [|b s2] [|c s3]; simpl; try congruence.
  destruct (Ascii.compare a b) eqn:Hab; try discriminate;
    destruct (Ascii.compare b c) eqn:Hbc; try discriminate; intros H12 H23.
  - apply Ascii.compare_eq_iff in Hab, Hbc. subst.
    rewrite ascii_compare_refl. eauto.
  - apply Ascii.compare_eq_iff in Hab. subst. now rewrite Hbc.
  - apply Ascii.compare_eq_iff in Hbc. subst. now rewrite Hab.
  - now rewrite (ascii_compare_lt_trans _ _ _ Hab Hbc).
Qed.

Lemma string_ltb_irrefl s : String.ltb s s = false.
Proof. unfold String.ltb. now rewrite string_compare_refl. Qed.

Lemma string_ltb_trans s1 s2 s3 :
  String.ltb s1 s2 = true -> String.ltb s2 s3 = true -> String.ltb s1 s3 = true.
Proof.
  unfold String.ltb.
  destruct (String.compare s1 s2) eqn:H12; try discriminate.
  destruct (String.compare s2 s3) eqn:H23; try discriminate.
  now rewrite (string_compare_lt_trans _ _ _ H12 H23).
Qed.

Lemma string_ltb_asym s1 s2 :
  String.ltb s1 s2 = true -> String.ltb s2 s1 = false.
Proof.
  unfold String.ltb. rewrite (String.compare_antisym s2 s1).
  destruct (String.compare s1 s2); simpl; congruence.
Qed.

(** Two names that do not compare less either way are the same name. *)
Lemma string_ltb_connex s1 s2 :
  String.ltb s1 s2 = false -> String.ltb s2 s1 = false -> s1 = s2.
Proof.
  unfold String.ltb. rewrite (String.compare_antisym s2 s1).
  destruct (String.compare s1 s2) eqn:H; simpl; try congruence.
  intros _ _. now apply String.compare_eq_iff.
Qed.

End string_order.

Section string_ops.

Lemma size_nonneg s : 0 <= size s.
Proof. unfold size. lia. Qed.

Lemma wrap_small z : 0 <= z < SIZE_MODULUS -> wrap z = z.
Proof. intros. unfold wrap. now apply Z.mod_small. Qed.

Lemma wrap_le z : 0 <= z -> 0 <= wrap z <= z.
Proof.
  intros Hz. unfold wrap, SIZE_MODULUS. split.
  - apply Z.mod_pos_bound. lia.
  - apply Z.mod_le; lia.
Qed.

Lemma wrap_npos_succ : wrap (npos + 1) = 0.
Proof. reflexivity. Qed.

(** [find] returns [npos] or the index of an occurrence. *)
Lemma find_from_range s c : forall i,
  find_from s c i = npos \/ i <= find_from s c i < i + size s.
Proof.
  induction s as [|a s IH]; intros i; simpl; [now left|].
  destruct (Ascii.eqb a c).
  - right. unfold size. simpl String.length. lia.
  - destruct (IH (i + 1)) as [->|H]; [now left|right].
    unfold size in *. simpl String.length. lia.
Qed.

Lemma find_from_absent s c : forall i,
  Forall (fun a => a <> c) (list_ascii_of_string s) -> find_from s c i = npos.
Proof.
  induction s as [|a s IH]; intros i H; simpl in *; [reflexivity|].
  inversion H as [|? ? Ha Hs]; subst.
  destruct (Ascii.eqb_spec a c); [contradiction|]. now apply IH.
Qed.

Lemma substr_in_range s pos : 0 <= pos <= size s ->
  substr s pos = Ok (drop_chars (Z.to_nat pos) s).
Proof.
  intros H. unfold substr. destruct (Z.ltb_spec (size s) pos); [lia|reflexivity].
Qed.

Lemma drop_chars_length n : forall s,
  (n <= String.length s)%nat ->
  String.length (drop_chars n s) = (String.length s - n)%nat.
Proof.
  induction n as [|n IH]; intros [|a s]; simpl; intros H; try lia.
  rewrite IH; lia.
Qed.

Lemma append_cons a s1 s2 : (String a s1 ++ s2 = String a (s1 ++ s2))%string.
Proof. reflexivity. Qed.

Lemma append_nil s : ("" ++ s = s)%string.
Proof. reflexivity. Qed.

Lemma drop_chars_app s1 s2 :
  drop_chars (String.length s1) (s1 ++ s2) = s2.
Proof.
  induction s1 as [|a s1 IH]; [rewrite append_nil; reflexivity|].
  rewrite append_cons. exact IH.
Qed.

(** Every string splits at any position within it. *)
Lemma drop_chars_split n : forall s,
  (n <= String.length s)%nat ->
  exists stem, s = (stem ++ drop_chars n s)%string /\ String.length stem = n.
Proof.
  induction n as [|n IH]; intros s H.
  - exists ""%string. split; reflexivity.
  - destruct s as [|a s]; simpl in H; [lia|].
    destruct (IH s) as (stem & Hs & Hl); [lia|].
    exists (String a stem). rewrite append_cons. simpl. split; congruence.
Qed.

Lemma tolower_length s : String.length (tolower s) = String.length s.
Proof. induction s; simpl; congruence. Qed.

Lemma string_app_length s1 s2 :
  String.length (s1 ++ s2) = (String.length s1 + String.length s2)%nat.
Proof.
  induction s1 as [|a s1 IH]; [reflexivity|].
  rewrite append_cons. simpl. congruence.
Qed.

End string_ops.

(** ** Directory scanner *)

Section scanner.

Lemma extract_desc_class_ok name :
  extract_desc_class name = Ok (description name).
Proof.
  unfold extract_desc_class, description, find.
  apply substr_in_range.
  destruct (find_from_range name "_"%char 0) as [->|H].
  - rewrite wrap_npos_succ. pose proof (size_nonneg name). lia.
  - pose proof (wrap_le (find_from name "_"%char 0 + 1)). lia.
Qed.

Lemma is_jpg_ok name : is_jpg name = Ok (accepted name).
Proof.
  unfold is_jpg, accepted.
  destruct (Z.ltb_spec 4 (size name)) as [H|H]; [|reflexivity].
  rewrite substr_in_range; [reflexivity|].
  pose proof (wrap_le (size name - 4)). lia.
Qed.

(** The inner loop appends one record per accepted file and changes
    nothing of [temp] but the file name. *)
Lemma scan_files_spec files : forall temp results,
  exists temp',
    scan_files files temp results =
      Ok (temp', results ++
                 ((fun f => set_filename temp (file_full_name f))
                    <$> filter (fun f => accepted (file_name f) = true) files)) /\
    label temp' = label temp /\ numeric_label temp' = numeric_label temp.
Proof.
  induction files as [|f files IH]; intros temp results; simpl.
  - exists temp. now rewrite app_nil_r.
  - rewrite is_jpg_ok, bind_Ok, filter_cons.
    destruct (accepted (file_name f)) eqn:Hf.
    + destruct (IH (set_filename temp (file_full_name f))
                  (results ++ [set_filename temp (file_full_name f)]))
        as (temp' & -> & Hl & Hn).
      exists temp'. rewrite decide_True by reflexivity.
      rewrite fmap_cons, <- app_assoc. simpl. auto.
    + rewrite decide_False by congruence. apply IH.
Qed.

Lemma not_after_total : Total not_after.
Proof.
  intros a b. unfold not_after, name_less.
  destruct (String.ltb (dir_name b) (dir_name a)) eqn:H; [|now left].
  right. now apply string_ltb_asym.
Qed.

Lemma not_after_trans : Transitive not_after.
Proof.
  intros a b c. unfold not_after, name_less. intros Hba Hcb.
  destruct (String.ltb (dir_name c) (dir_name a)) eqn:Hca; [|reflexivity].
  destruct (String.ltb (dir_name a) (dir_name b)) eqn:Hab.
  - now rewrite (string_ltb_trans _ _ _ Hca Hab) in Hcb.
  - rewrite (string_ltb_connex _ _ Hab Hba) in Hca. congruence.
Qed.

Lemma sort_dirs_perm subdirs : sort_dirs subdirs ≡ₚ subdirs.
Proof. apply merge_sort_Permutation. Qed.

(** With pairwise distinct names the sorted range is strictly
    ascending. *)
Lemma sort_dirs_ascending subdirs :
  NoDup (dir_name <$> subdirs) ->
  StronglySorted (fun a b => name_less a b = true) (sort_dirs subdirs).
Proof.
  intros Hnd.
  assert (Hs : StronglySorted not_after (sort_dirs subdirs)).
  { apply (@StronglySorted_merge_sort _ _ _ not_after_trans not_after_total). }
  assert (Hnd' : NoDup (dir_name <$> sort_dirs subdirs)).
  { now rewrite sort_dirs_perm. }
  induction Hs as [|a l Hs IH Ha]; [constructor|].
  rewrite fmap_cons, NoDup_cons in Hnd'. destruct Hnd' as [Hnotin Hnd'].
  constructor; [now apply IH|].
  rewrite Forall_forall in Ha |- *. intros b Hb.
  specialize (Ha b Hb). unfold not_after, name_less in *.
  destruct (String.ltb (dir_name a) (dir_name b)) eqn:Hab; [reflexivity|].
  exfalso. apply Hnotin. rewrite (string_ltb_connex _ _ Hab Ha).
  apply list_elem_of_fmap. exists b. split; [reflexivity|exact Hb].
Qed.

Lemma filter_all {A} (P : A -> Prop) `{forall x, Decision (P x)} (l : list A) :
  (forall x, x ∈ l -> P x) -> filter P l = l.
Proof.
  induction l as [|x l IH]; intros Hl; [reflexivity|].
  rewrite filter_cons_True by (apply Hl; left).
  f_equal. apply IH. intros y Hy. apply Hl. now right.
Qed.

Lemma filter_none {A} (P : A -> Prop) `{forall x, Decision (P x)} (l : list A) :
  (forall x, x ∈ l -> ~ P x) -> filter P l = [].
Proof.
  induction l as [|x l IH]; intros Hl; [reflexivity|].
  rewrite filter_cons_False by (apply Hl; left).
  apply IH. intros y Hy. apply Hl. now right.
Qed.

Lemma rank_perm l1 l2 d : l1 ≡ₚ l2 -> rank l1 d = rank l2 d.
Proof. intros H. unfold rank. now rewrite H. Qed.

(** In a strictly ascending range, an element's rank is its index. *)
Lemma rank_in_ascending before d after :
  StronglySorted (fun a b => name_less a b = true) (before ++ d :: after) ->
  rank (before ++ d :: after) d = Z.of_nat (length before).
Proof.
  intros Hs. unfold rank. f_equal.
  apply StronglySorted_app in Hs as (Hcross & _ & Hd).
  apply StronglySorted_cons in Hd as [Hafter _].
  rewrite filter_app, filter_cons, decide_False.
  2: { unfold name_less. rewrite string_ltb_irrefl. congruence. }
  rewrite length_app.
  assert (Hb : filter (fun d' => name_less d' d = true) before = before).
  { apply filter_all. intros x Hx. apply Hcross; [exact Hx|left]. }
  assert (Ha : filter (fun d' => name_less d' d = true) after = []).
  { apply filter_none. intros x Hx. rewrite Forall_forall in Hafter.
    apply Hafter in Hx. unfold name_less in *.
    rewrite (string_ltb_asym _ _ Hx). congruence. }
  rewrite Hb, Ha. simpl. lia.
Qed.

(** The outer loop over a strictly ascending range: every subdirectory
    contributes its records under its rank, whether or not it holds any
    accepted file. *)
Lemma scan_dirs_spec todo : forall done temp results,
  StronglySorted (fun a b => name_less a b = true) (done ++ todo) ->
  Z.of_nat (length (done ++ todo)) < SIZE_MODULUS ->
  numeric_label temp = Z.of_nat (length done) ->
  exists temp',
    scan_dirs todo temp results =
      Ok (temp', results ++ (d ← todo; records_of d (rank (done ++ todo) d))) /\
    numeric_label temp' = wrap (Z.of_nat (length (done ++ todo))).
Proof.
  induction todo as [|d todo IH]; intros done temp results Hs Hlen Hnum.
  - exists temp. simpl. rewrite !app_nil_r in *. split; [reflexivity|].
    rewrite wrap_small; lia.
  - simpl scan_dirs. rewrite extract_desc_class_ok, bind_Ok.
    destruct (scan_files_spec (get_files d) (set_label temp (description (dir_name d)))
                results) as (temp1 & -> & Hl1 & Hn1).
    rewrite bind_Ok. simpl in Hl1, Hn1.
    assert (Hassoc : (done ++ [d]) ++ todo = done ++ d :: todo)
      by now rewrite <- app_assoc.
    destruct (IH (done ++ [d]) (incr_numeric_label temp1)
                (results ++
                   ((fun f => set_filename (set_label temp (description (dir_name d)))
                                (file_full_name f))
                      <$> filter (fun f => accepted (file_name f) = true) (get_files d))))
      as (temp' & -> & Hn').
    + now rewrite Hassoc.
    + now rewrite Hassoc.
    + simpl. rewrite Hn1, Hnum, length_app. simpl.
      rewrite length_app in Hlen. simpl in Hlen.
      rewrite wrap_small; lia.
    + exists temp'. rewrite Hassoc in *. split; [|exact Hn'].
      f_equal. f_equal. rewrite <- app_assoc. f_equal.
      rewrite bind_cons. f_equal.
      rewrite (rank_in_ascending done d todo Hs). unfold records_of.
      apply list_fmap_ext. intros _ f _. unfold set_filename, set_label. simpl.
      now rewrite Hnum.
Qed.

Lemma get_imagenet_listing_spec fs folder root :
  fs folder = Some root ->
  NoDup (dir_name <$> get_dirs root) ->
  Z.of_nat (length (get_dirs root)) < SIZE_MODULUS ->
  get_imagenet_listing fs folder =
    Ok (d ← sort_dirs (get_dirs root); records_of d (rank (get_dirs root) d)).
Proof.
  intros Hroot Hnd Hlen. unfold get_imagenet_listing, open_directory.
  rewrite Hroot, bind_Ok.
  destruct (scan_dirs_spec (sort_dirs (get_dirs root)) [] initial_temp [])
    as (temp' & -> & _).
  - now apply sort_dirs_ascending.
  - simpl. now rewrite sort_dirs_perm.
  - reflexivity.
  - rewrite bind_Ok. simpl. f_equal.
    apply list_bind_ext; [|reflexivity]. intros d.
    f_equal. apply rank_perm, sort_dirs_perm.
Qed.

End scanner.

Section scanner_claims.

Example sample_fs_listing :
  get_imagenet_listing sample_fs "train" = Ok sample_listing.
Proof. vm_compute. reflexivity. Qed.

(** The file names of the listing, without any assumption on the tree. *)
Lemma scan_dirs_filenames todo : forall temp results,
  exists temp' results',
    scan_dirs todo temp results = Ok (temp', results') /\
    filename <$> results' =
      (filename <$> results) ++
      (d ← todo; file_full_name <$>
                   filter (fun f => accepted (file_name f) = true) (get_files d)).
Proof.
  induction todo as [|d todo IH]; intros temp results.
  - exists temp, results. simpl. now rewrite app_nil_r.
  - simpl scan_dirs. rewrite extract_desc_class_ok, bind_Ok.
    destruct (scan_files_spec (get_files d) (set_label temp (description (dir_name d)))
                results) as (temp1 & -> & _ & _).
    rewrite bind_Ok.
    match goal with |- context [scan_dirs todo ?t ?r] =>
      destruct (IH t r) as (temp' & results' & -> & Hf) end.
    exists temp', results'. split; [reflexivity|].
    rewrite Hf, fmap_app, <- app_assoc, bind_cons. f_equal. f_equal.
    rewrite <- list_fmap_compose. apply list_fmap_ext. reflexivity.
Qed.

Lemma ends_with_jpg_length name stem ext :
  name = (stem ++ ext)%string -> tolower ext = ".jpg"%string ->
  size name = size stem + 4.
Proof.
  intros -> Hext. unfold size. rewrite string_app_length.
  rewrite <- (tolower_length ext), Hext. simpl. lia.
Qed.

Lemma accepted_iff name :
  size name < SIZE_MODULUS ->
  accepted name = true <-> 4 < size name /\ ends_with_jpg name.
Proof.
  intros Hsz. unfold accepted. rewrite andb_true_iff, Z.ltb_lt, String.eqb_eq.
  split.
  - intros [Hlen Hext]. split; [exact Hlen|].
    rewrite wrap_small in Hext by (pose proof (size_nonneg name); lia).
    destruct (drop_chars_split (Z.to_nat (size name - 4)) name) as (stem & Hs & _).
    { unfold size in *. lia. }
    exists stem, (drop_chars (Z.to_nat (size name - 4)) name). auto.
  - intros [Hlen (stem & ext & Hname & Hext)]. split; [exact Hlen|].
    pose proof (ends_with_jpg_length _ _ _ Hname Hext) as Hl.
    rewrite wrap_small by lia.
    replace (Z.to_nat (size name - 4)) with (String.length stem)
      by (unfold size in *; lia).
    subst name. now rewrite drop_chars_app.
Qed.

End scanner_claims.

(** C1. With pairwise distinct names, the scanner's listing is, for the
    subdirectories taken in ascending order of name, the records of each
    subdirectory under a numeric label equal to the subdirectory's
    zero-based rank, which is also its index in the sorted range; a
    subdirectory that contributes no record still takes its rank. *)
Theorem scanner_numeric_label_is_rank fs folder root :
  fs folder = Some root ->
  NoDup (dir_name <$> get_dirs root) ->
  Z.of_nat (length (get_dirs root)) < SIZE_MODULUS ->
  exists sorted : list directory,
    sorted ≡ₚ get_dirs root /\
    StronglySorted (fun a b => String.ltb (dir_name a) (dir_name b) = true) sorted /\
    (forall i d, sorted !! i = Some d -> rank (get_dirs root) d = Z.of_nat i) /\
    get_imagenet_listing fs folder =
      Ok (d ← sorted; records_of d (rank (get_dirs root) d)).
Proof.
  intros Hroot Hnd Hlen. exists (sort_dirs (get_dirs root)).
  pose proof (sort_dirs_ascending _ Hnd) as Hs.
  split; [apply sort_dirs_perm|]. split; [exact Hs|]. split.
  - intros i d Hi.
    apply list_elem_of_split_length in Hi as (before & after & Heq & ->).
    rewrite <- (rank_perm _ _ d (sort_dirs_perm (get_dirs root))).
    rewrite Heq in Hs |- *. now apply rank_in_ascending.
  - now apply get_imagenet_listing_spec.
Qed.

Lemma scanner_numeric_label_is_rank_witness :
  exists sorted : list directory,
    sorted ≡ₚ get_dirs sample_root /\
    StronglySorted (fun a b => String.ltb (dir_name a) (dir_name b) = true) sorted /\
    (forall i d, sorted !! i = Some d -> rank (get_dirs sample_root) d = Z.of_nat i) /\
    get_imagenet_listing sample_fs "train" =
      Ok (d ← sorted; records_of d (rank (get_dirs sample_root) d)).
Proof.
  apply (scanner_numeric_label_is_rank sample_fs "train" sample_root).
  - reflexivity.
  - refine (bool_decide_unpack _ _). vm_compute. exact I.
  - vm_compute. reflexivity.
Defined.

(** C5, as the code has it.  The guard accepts a name exactly when it is
    longer than four characters and ends with [.jpg] compared
    case-insensitively; the guard never throws; and the file names of the
    listing are those of the accepted files, subdirectory by subdirectory
    in sorted order, every other file being skipped. *)
Theorem scanner_keeps_jpg_with_stem :
  (forall name, is_jpg name = Ok (accepted name)) /\
  (forall name, size name < SIZE_MODULUS ->
     (accepted name = true <-> 4 < size name /\ ends_with_jpg name)) /\
  (forall fs folder root, fs folder = Some root ->
     exists listing,
       get_imagenet_listing fs folder = Ok listing /\
       filename <$> listing =
         (d ← sort_dirs (get_dirs root);
          file_full_name <$>
            filter (fun f => accepted (file_name f) = true) (get_files d))).
Proof.
  split; [exact is_jpg_ok|]. split; [exact accepted_iff|].
  intros fs folder root Hroot. unfold get_imagenet_listing, open_directory.
  rewrite Hroot, bind_Ok.
  destruct (scan_dirs_filenames (sort_dirs (get_dirs root)) initial_temp [])
    as (temp' & results' & -> & Hf).
  exists results'. split; [reflexivity|exact Hf].
Qed.

(** C5 as stated fails: the name [.jpg] ends with [.jpg], yet the guard
    rejects it and the scanner lists nothing for a subdirectory holding only
    that file. *)
Lemma scanner_skips_bare_jpg_suffix :
  ends_with_jpg ".jpg" /\
  is_jpg ".jpg" = Ok false /\
  get_imagenet_listing bare_suffix_fs "train" = Ok [].
Proof.
  split; [|split].
  - exists ""%string, ".jpg"%string. split; reflexivity.
  - reflexivity.
  - vm_compute. reflexivity.
Qed.

(** C10. A directory name without underscore is returned whole by
    [extract_desc_class] ([find] gives [npos], [npos + 1] wraps to [0]);
    the scanner does not fail on such a subdirectory and labels each of its
    accepted files with the full name. *)
Theorem extract_desc_class_without_underscore :
  (forall name, no_underscore name ->
     find name "_"%char = npos /\ wrap (npos + 1) = 0 /\
     extract_desc_class name = Ok name) /\
  (forall fs folder root,
     fs folder = Some root ->
     NoDup (dir_name <$> get_dirs root) ->
     Z.of_nat (length (get_dirs root)) < SIZE_MODULUS ->
     exists listing,
       get_imagenet_listing fs folder = Ok listing /\
       forall d f,
         d ∈ get_dirs root -> no_underscore (dir_name d) ->
         f ∈ get_files d -> accepted (file_name f) = true ->
         {| filename := file_full_name f; label := dir_name d;
            numeric_label := rank (get_dirs root) d |} ∈ listing).
Proof.
  assert (Hname : forall name, no_underscore name ->
            find name "_"%char = npos /\ wrap (npos + 1) = 0 /\
            extract_desc_class name = Ok name).
  { intros name Hno. unfold no_underscore in Hno.
    pose proof (find_from_absent name "_"%char 0 Hno) as Hfind.
    split; [exact Hfind|]. split; [reflexivity|].
    unfold extract_desc_class, find. rewrite Hfind. change (wrap (npos + 1)) with 0.
    rewrite substr_in_range by (pose proof (size_nonneg name); lia).
    reflexivity. }
  split; [exact Hname|].
  intros fs folder root Hroot Hnd Hlen.
  eexists. split; [exact (get_imagenet_listing_spec fs folder root Hroot Hnd Hlen)|].
  intros d f Hd Hno Hf Hacc.
  apply list_elem_of_bind. exists d. split.
  - unfold records_of. apply list_elem_of_fmap. exists f. split.
    + f_equal. destruct (Hname _ Hno) as (_ & _ & Hex).
      rewrite extract_desc_class_ok in Hex. congruence.
    + apply list_elem_of_filter. auto.
  - now rewrite sort_dirs_perm.
Qed.

Lemma extract_desc_class_without_underscore_witness :
  (find "misc" "_"%char = npos /\ wrap (npos + 1) = 0 /\
   extract_desc_class "misc" = Ok "misc"%string) /\
  exists listing,
    get_imagenet_listing sample_fs "train" = Ok listing /\
    forall d f,
      d ∈ get_dirs sample_root -> no_underscore (dir_name d) ->
      f ∈ get_files d -> accepted (file_name f) = true ->
      {| filename := file_full_name f; label := dir_name d;
         numeric_label := rank (get_dirs sample_root) d |} ∈ listing.
Proof.
  split.
  - apply (proj1 extract_desc_class_without_underscore "misc"%string).
    unfold no_underscore. simpl. repeat constructor; discriminate.
  - apply (proj2 extract_desc_class_without_underscore sample_fs "train" sample_root).
    + reflexivity.
    + refine (bool_decide_unpack _ _). vm_compute. exact I.
    + vm_compute. reflexivity.
Defined.

Lemma scanner_keeps_jpg_with_stem_witness :
  (accepted "d2.JPG" = true <-> 4 < size "d2.JPG" /\ ends_with_jpg "d2.JPG") /\
  exists listing,
    get_imagenet_listing sample_fs "train" = Ok listing /\
    filename <$> listing =
      (d ← sort_dirs (get_dirs sample_root);
       file_full_name <$>
         filter (fun f => accepted (file_name f) = true) (get_files d)).
Proof.
  split.
  - apply (proj1 (proj2 scanner_keeps_jpg_with_stem) "d2.JPG"%string).
    vm_compute. reflexivity.
  - apply (proj2 (proj2 scanner_keeps_jpg_with_stem) sample_fs "train" sample_root).
    reflexivity.
Defined.

(** ** Image loader *)

Section imaging.

(** Position [i * n + j] of a concatenation of blocks of length [n] is
    position [j] of block [i]. *)
Lemma lookup_bind_blocks {A B} (f : A -> list B) (n : nat) (l : list A) :
  (forall y, length (f y) = n) ->
  forall (i j : nat) (x : A),
    l !! i = Some x -> (j < n)%nat -> (l ≫= f) !! (i * n + j)%nat = f x !! j.
Proof.
  intros Hn. induction l as [|a l IH]; intros i j x Hi Hj; [discriminate|].
  rewrite bind_cons. destruct i as [|i]; simpl in Hi.
  - injection Hi as ->. simpl. apply lookup_app_l. now rewrite Hn.
  - rewrite lookup_app_r by (rewrite Hn; simpl; lia).
    rewrite Hn. replace (S i * n + j - n)%nat with (i * n + j)%nat by (simpl; lia).
    now apply IH.
Qed.

Lemma length_bind_blocks {A B} (f : A -> list B) (n : nat) (l : list A) :
  (forall y, length (f y) = n) -> length (l ≫= f) = (length l * n)%nat.
Proof.
  intros Hn. induction l as [|a l IH]; [reflexivity|].
  rewrite bind_cons, length_app, Hn, IH. simpl. lia.
Qed.

Lemma resize_image_dims lib src rows cols how :
  nr (resize_image lib src rows cols how) = rows /\
  nc (resize_image lib src rows cols how) = cols.
Proof. split; reflexivity. Qed.

Lemma resize_image_length lib src rows cols how :
  0 <= rows -> 0 <= cols ->
  length (pixels (resize_image lib src rows cols how)) = Z.to_nat (rows * cols).
Proof.
  intros Hr Hc. unfold resize_image. simpl.
  rewrite (length_bind_blocks _ (Z.to_nat cols)).
  - rewrite length_seqZ. rewrite Z2Nat.inj_mul by lia. reflexivity.
  - intros r. rewrite (length_bind_blocks _ 1%nat) by reflexivity.
    rewrite length_seqZ. lia.
Qed.

(** Every pixel of the destination is the resampled one. *)
Lemma resize_image_pixel lib src rows cols how r c :
  0 <= r < rows -> 0 <= c < cols ->
  pixels (resize_image lib src rows cols how) !! Z.to_nat (r * cols + c) =
    Some (resample lib src rows cols how r c).
Proof.
  intros Hr Hc. unfold resize_image. simpl.
  replace (Z.to_nat (r * cols + c))
    with (Z.to_nat r * Z.to_nat cols + Z.to_nat c)%nat
    by (rewrite Z2Nat.inj_add, Z2Nat.inj_mul by nia; reflexivity).
  rewrite (lookup_bind_blocks _ (Z.to_nat cols) _) with (x := r).
  - replace (Z.to_nat c) with (Z.to_nat c * 1 + 0)%nat by lia.
    rewrite (lookup_bind_blocks _ 1%nat _) with (x := c); try reflexivity; try lia.
    rewrite lookup_seqZ. split; lia.
  - intros y. rewrite (length_bind_blocks _ 1%nat) by reflexivity.
    rewrite length_seqZ. lia.
  - rewrite lookup_seqZ. split; lia.
  - lia.
Qed.

(** The loader either returns an image or throws. *)
Lemma load_and_resize_image_defined lib filename rows cols :
  snd (load_and_resize_image lib filename rows cols) <> Undefined.
Proof.
  unfold load_and_resize_image, matrix_new.
  destruct (load_image lib filename) as [e|img]; simpl; [discriminate|].
  destruct (negb (nr img =? rows) || negb (nc img =? cols)); simpl; [|discriminate].
  destruct ((0 <=? rows) && (0 <=? cols)); simpl; discriminate.
Qed.

End imaging.

(** C8. When the decoded image already has the target dimensions, the
    loader returns it as decoded and makes no call to [resize_image];
    otherwise (for non-negative target dimensions) it makes exactly one
    such call, with the bilinear interpolator, and returns the [rows] by
    [cols] matrix that call filled. *)
Theorem load_and_resize_image_spec lib filename rows cols img :
  load_image lib filename = inr img ->
  (nr img = rows /\ nc img = cols ->
     load_and_resize_image lib filename rows cols = ([CallLoadImage filename], Ok img)) /\
  (nr img <> rows \/ nc img <> cols -> 0 <= rows -> 0 <= cols ->
     exists resized,
       load_and_resize_image lib filename rows cols =
         ([CallLoadImage filename;
           CallResizeImage img rows cols interpolate_bilinear;
           CallAssignImage], Ok resized) /\
       nr resized = rows /\ nc resized = cols /\
       length (pixels resized) = Z.to_nat (rows * cols) /\
       forall r c, 0 <= r < rows -> 0 <= c < cols ->
         pixels resized !! Z.to_nat (r * cols + c) =
           Some (resample lib img rows cols interpolate_bilinear r c)).
Proof.
  intros Hload. unfold load_and_resize_image. rewrite Hload. split.
  - intros [<- <-]. now rewrite !Z.eqb_refl.
  - intros Hdiff Hr Hc.
    assert (Hne : negb (nr img =? rows) || negb (nc img =? cols) = true).
    { apply orb_true_iff. rewrite !negb_true_iff, !Z.eqb_neq. exact Hdiff. }
    rewrite Hne. unfold matrix_new.
    destruct (Z.leb_spec 0 rows); [|lia]. destruct (Z.leb_spec 0 cols); [|lia].
    simpl. eexists. split; [reflexivity|].
    split; [reflexivity|]. split; [reflexivity|].
    split; [now apply resize_image_length|].
    intros r c. apply resize_image_pixel.
Qed.

Lemma load_and_resize_image_spec_witness :
  load_and_resize_image sample_lib "train/misc/m.jpg" 1 2 =
    ([CallLoadImage "train/misc/m.jpg"], Ok sample_image) /\
  exists resized,
    load_and_resize_image sample_lib "train/misc/m.jpg" 2 2 =
      ([CallLoadImage "train/misc/m.jpg";
        CallResizeImage sample_image 2 2 interpolate_bilinear;
        CallAssignImage], Ok resized) /\
    nr resized = 2 /\ nc resized = 2 /\
    length (pixels resized) = Z.to_nat (2 * 2) /\
    forall r c, 0 <= r < 2 -> 0 <= c < 2 ->
      pixels resized !! Z.to_nat (r * 2 + c) =
        Some (resample sample_lib sample_image 2 2 interpolate_bilinear r c).
Proof.
  split.
  - apply (load_and_resize_image_spec sample_lib "train/misc/m.jpg" 1 2 sample_image).
    + reflexivity.
    + split; reflexivity.
  - apply (load_and_resize_image_spec sample_lib "train/misc/m.jpg" 2 2 sample_image).
    + reflexivity.
    + left. simpl. lia.
    + lia.
    + lia.
Defined.

(** ** Dataset builder *)

Section builder.

Import Builder.

Variables (env : environment) (listing : list imagenet_info) (rows cols : Z).

Lemma ingested_snoc records info :
  ingested (lib env) rows cols (records ++ [info]) =
    ingest_one (lib env) rows cols (ingested (lib env) rows cols records) info.
Proof. unfold ingested. now rewrite foldl_app. Qed.

(** The body always completes: a load failure is caught. *)
Lemma loop_body_ok total info st :
  exists st',
    loop_body env total rows cols info st = Ok st' /\
    loop_i st' = S (loop_i st) /\
    dataset st' = ingest_one (lib env) rows cols (dataset st) info.
Proof.
  unfold loop_body, ingest_one.
  pose proof (load_and_resize_image_defined (lib env) (filename info) rows cols) as Hdef.
  destruct (snd (load_and_resize_image (lib env) (filename info) rows cols))
    as [img|e|]; [| |contradiction]; simpl; eauto.
Qed.

Lemma push_sample_consistent ds img info :
  consistent ds -> consistent (push_sample ds img info).
Proof.
  unfold consistent, push_sample. simpl. rewrite !length_app. simpl. lia.
Qed.

Lemma ingest_one_consistent ds info : consistent ds -> consistent (ingest_one (lib env) rows cols ds info).
Proof.
  unfold ingest_one.
  destruct (snd (load_and_resize_image (lib env) (filename info) rows cols));
    auto using push_sample_consistent.
Qed.

Lemma loop_step_inv st st' :
  loop_step env listing rows cols st = Ok (Some st') ->
  exists info,
    listing !! loop_i st = Some info /\
    terminate_flag_at env (loop_i st) = false /\
    loop_body env (length listing) rows cols info st = Ok st'.
Proof.
  unfold loop_step. destruct (listing !! loop_i st) as [info|]; [|discriminate].
  destruct (terminate_flag_at env (loop_i st)); [discriminate|].
  intros H. apply bind_Ok_inv in H as (st1 & Hb & Heq).
  injection Heq as ->. eauto.
Qed.

Lemma reachable_consistent log0 st :
  reachable env listing rows cols log0 st -> consistent (dataset st).
Proof.
  induction 1 as [|st st' _ IH Hstep].
  - split; reflexivity.
  - apply loop_step_inv in Hstep as (info & _ & _ & Hbody).
    destruct (loop_body_ok (length listing) info st) as (st1 & Hb & _ & Hds).
    rewrite Hb in Hbody. injection Hbody as <-.
    rewrite Hds. now apply ingest_one_consistent.
Qed.

(** The loop returns, in a state it went through. *)
Lemma loop_run_reachable log0 fuel : forall st,
  reachable env listing rows cols log0 st ->
  exists st',
    loop_run env listing rows cols fuel st = Ok st' /\
    reachable env listing rows cols log0 st'.
Proof.
  induction fuel as [|fuel IH]; intros st Hst; simpl; [eauto|].
  destruct (loop_step env listing rows cols st) as [[st1|]| |] eqn:Hstep; simpl.
  - apply IH. econstructor; eauto.
  - eauto.
  - exfalso. unfold loop_step in Hstep.
    destruct (listing !! loop_i st) as [info|]; [|discriminate].
    destruct (terminate_flag_at env (loop_i st)); [discriminate|].
    destruct (loop_body_ok (length listing) info st) as (st1 & Hb & _).
    rewrite Hb in Hstep. discriminate.
  - exfalso. unfold loop_step in Hstep.
    destruct (listing !! loop_i st) as [info|]; [|discriminate].
    destruct (terminate_flag_at env (loop_i st)); [discriminate|].
    destruct (loop_body_ok (length listing) info st) as (st1 & Hb & _).
    rewrite Hb in Hstep. discriminate.
Qed.

(** Running the loop from index [loop_i st] up to the first index [k] at
    which the condition is false. *)
Lemma loop_run_until k fuel : forall st,
  (loop_i st <= k <= length listing)%nat ->
  (k - loop_i st <= fuel)%nat ->
  (forall i, (loop_i st <= i < k)%nat -> terminate_flag_at env i = false) ->
  ((k < length listing)%nat -> terminate_flag_at env k = true) ->
  dataset st = ingested (lib env) rows cols (take (loop_i st) listing) ->
  exists st',
    loop_run env listing rows cols fuel st = Ok st' /\
    loop_i st' = k /\
    dataset st' = ingested (lib env) rows cols (take k listing) /\
    loop_step env listing rows cols st' = Ok None.
Proof.
  assert (Hstop : forall st, loop_i st = k ->
            ((k < length listing)%nat -> terminate_flag_at env k = true) ->
            loop_step env listing rows cols st = Ok None).
  { intros st Hi Hflag. unfold loop_step. rewrite Hi.
    destruct (listing !! k) as [info|] eqn:Hk; [|reflexivity].
    rewrite Hflag; [reflexivity|]. now apply lookup_lt_Some in Hk. }
  induction fuel as [|fuel IH]; intros st Hrange Hfuel Hclear Hset Hds.
  - exists st. assert (loop_i st = k) by lia. subst k. simpl. auto.
  - destruct (decide (loop_i st = k)) as [Heq|Hne].
    + exists st. simpl. rewrite (Hstop st Heq Hset). simpl. subst k. auto.
    + simpl. unfold loop_step at 1.
      destruct (lookup_lt_is_Some_2 listing (loop_i st)) as [info Hinfo]; [lia|].
      rewrite Hinfo, (Hclear (loop_i st)) by lia.
      destruct (loop_body_ok (length listing) info st) as (st1 & -> & Hi1 & Hd1).
      simpl. apply IH.
      * lia.
      * lia.
      * intros i Hi. apply Hclear. lia.
      * exact Hset.
      * rewrite Hd1, Hi1, Hds.
        rewrite (take_S_r _ _ _ Hinfo). now rewrite ingested_snoc.
Qed.

End builder.

(** C7. Every state of the ingestion loop, from entry to exit, holds three
    sequences of equal length.  An iteration whose image loads appends one
    element to each sequence, all three at the index that was the common
    length; an iteration whose image fails to load leaves the dataset as it
    was.  The loop returns, in one of these states. *)
Theorem ingestion_keeps_sequences_aligned env listing rows cols log0 :
  (forall st, reachable env listing rows cols log0 st -> consistent (Builder.dataset st)) /\
  (forall st info,
     exists st',
       Builder.loop_body env (length listing) rows cols info st = Ok st' /\
       ((exists img,
           snd (load_and_resize_image (Builder.lib env) (filename info) rows cols) = Ok img /\
           images (Builder.dataset st') = images (Builder.dataset st) ++ [img] /\
           labels (Builder.dataset st') = labels (Builder.dataset st) ++ [label info] /\
           numeric_labels (Builder.dataset st') =
             numeric_labels (Builder.dataset st) ++ [numeric_label info] /\
           (consistent (Builder.dataset st) ->
            let n := length (images (Builder.dataset st)) in
            images (Builder.dataset st') !! n = Some img /\
            labels (Builder.dataset st') !! n = Some (label info) /\
            numeric_labels (Builder.dataset st') !! n = Some (numeric_label info))) \/
        (exists e,
           snd (load_and_resize_image (Builder.lib env) (filename info) rows cols) = Throw e /\
           Builder.dataset st' = Builder.dataset st))) /\
  (exists st,
     Builder.loop_run env listing rows cols (length listing) (Builder.initial_state log0)
       = Ok st /\
     reachable env listing rows cols log0 st).
Proof.
  split; [|split].
  - intros st. apply reachable_consistent.
  - intros st info.
    destruct (loop_body_ok env rows cols (length listing) info st) as (st' & Hb & _ & Hds).
    exists st'. split; [exact Hb|]. rewrite Hds. unfold ingest_one.
    pose proof (load_and_resize_image_defined (Builder.lib env) (filename info) rows cols).
    destruct (snd (load_and_resize_image (Builder.lib env) (filename info) rows cols))
      as [img|e|]; [left|right|contradiction].
    + exists img. simpl. repeat split; try reflexivity.
      * apply list_lookup_middle. reflexivity.
      * apply list_lookup_middle. destruct H0 as [H1 _]. now rewrite H1.
      * apply list_lookup_middle. destruct H0 as [H1 H2]. now rewrite H1, H2.
    + exists e. split; reflexivity.
  - apply loop_run_reachable. constructor.
Qed.

Lemma ingestion_keeps_sequences_aligned_witness :
  consistent
    (Builder.dataset
       {| Builder.loop_i := 1;
          Builder.dataset :=
            {| images := [sample_image]; labels := ["misc"%string]; numeric_labels := [0] |};
          Builder.log := [Builder.LogProgress 1 1] |}).
Proof.
  apply (proj1 (ingestion_keeps_sequences_aligned (sample_env 4)
                  (take 1 sample_listing) 1 2 [])).
  eapply reachable_iteration; [apply reachable_entry|].
  vm_compute. reflexivity.
Defined.

(** C6. When the flag is first seen set in the condition evaluated before
    iteration [k], the loop leaves with records [k], [k + 1], ...
    unprocessed, and the builder goes on to write the output file, whose
    content is the stream of exactly the dataset that ingesting the first
    [k] records accumulates. *)
Theorem cancellation_flushes_partial_dataset `{Codecs}
    env (d : disk) folder out rows cols listing (k : nat) :
  get_imagenet_listing (Builder.fs env) folder = Ok listing ->
  (k < length listing)%nat ->
  (forall i, (i < k)%nat -> Builder.terminate_flag_at env i = false) ->
  Builder.terminate_flag_at env k = true ->
  Builder.can_write env out = true ->
  exists st log0 log1,
    Builder.loop_run env listing rows cols (length listing) (Builder.initial_state log0)
      = Ok st /\
    Builder.loop_i st = k /\
    Builder.loop_step env listing rows cols st = Ok None /\
    Builder.dataset st = ingested (Builder.lib env) rows cols (take k listing) /\
    Builder.create_imagenet_dataset env d folder out rows cols =
      (<[out := write_dataset (ingested (Builder.lib env) rows cols (take k listing))]> d,
       Ok log1).
Proof.
  intros Hlist Hk Hclear Hset Hw.
  unfold Builder.create_imagenet_dataset. rewrite Hlist.
  destruct (decide (listing = [])) as [->|Hne]; [simpl in Hk; lia|].
  match goal with |- context [Builder.initial_state ?l] => set (log0 := l) end.
  destruct (loop_run_until env listing rows cols k (length listing)
              (Builder.initial_state log0))
    as (st & Hrun & Hi & Hds & Hstop); simpl; try lia.
  - intros i Hi. apply Hclear. lia.
  - auto.
  - reflexivity.
  - exists st, log0. eexists. rewrite Hrun.
    unfold Builder.save_dataset. rewrite Hw, Hds. auto.
Qed.

Lemma cancellation_flushes_partial_dataset_witness :
  exists st log0 log1,
    Builder.loop_run (sample_env 2) sample_listing 1 2 (length sample_listing)
      (Builder.initial_state log0) = Ok st /\
    Builder.loop_i st = 2%nat /\
    Builder.loop_step (sample_env 2) sample_listing 1 2 st = Ok None /\
    Builder.dataset st = ingested sample_lib 1 2 (take 2 sample_listing) /\
    @Builder.create_imagenet_dataset Wire.codecs (sample_env 2) ∅ "train" "imagenet.dat" 1 2 =
      (<["imagenet.dat"%string :=
           @write_dataset Wire.codecs (ingested sample_lib 1 2 (take 2 sample_listing))]> ∅,
       Ok log1).
Proof.
  apply (@cancellation_flushes_partial_dataset Wire.codecs (sample_env 2) ∅
           "train" "imagenet.dat" 1 2 sample_listing 2%nat).
  - vm_compute. reflexivity.
  - simpl. lia.
  - intros i Hi. simpl. apply bool_decide_eq_false. lia.
  - reflexivity.
  - reflexivity.
Defined.

(** C9. When the scanner returns an empty listing, the builder throws
    [dlib::error] with the message naming the directory, and the disk is as
    it was: nothing is written. *)
Theorem empty_listing_fails_without_output `{Codecs}
    env (d : disk) folder out rows cols :
  get_imagenet_listing (Builder.fs env) folder = Ok [] ->
  Builder.create_imagenet_dataset env d folder out rows cols =
    (d, Throw (dlib_error ("No images found in directory: " ++ folder))).
Proof.
  intros Hlist. unfold Builder.create_imagenet_dataset. rewrite Hlist.
  reflexivity.
Qed.

Lemma empty_listing_fails_without_output_witness :
  @Builder.create_imagenet_dataset Wire.codecs
    {| Builder.fs := bare_suffix_fs; Builder.lib := sample_lib;
       Builder.terminate_flag_at := fun _ => false;
       Builder.can_write := fun _ => true |}
    ∅ "train" "imagenet.dat" 224 224 =
  (∅, Throw (dlib_error "No images found in directory: train")).
Proof.
  apply (@empty_listing_fails_without_output Wire.codecs).
  vm_compute. reflexivity.
Defined.

(** ** Serialized stream *)

Section vector_round_trip.

Context {ulong_codec : Serializable Z} {T : Type} {item_codec : Serializable T}.
Context {ulong_lawful : @Lawful Z ulong_codec} {item_lawful : @Lawful T item_codec}.

Lemma deserialize_items_serialize (l : list T) (rest : list byte) :
  Forall representable l ->
  deserialize_items (length l) ((l ≫= serialize) ++ rest) = Ok (l, rest).
Proof.
  induction 1 as [|x l Hx Hl IH]; [reflexivity|].
  rewrite bind_cons, <- app_assoc. simpl.
  rewrite (deserialize_serialize x _ Hx), bind_Ok, IH. reflexivity.
Qed.

Lemma vector_codec_lawful : @Lawful (list T) vector_codec.
Proof.
  intros l rest [Hn Hl]. simpl. rewrite <- app_assoc.
  rewrite (deserialize_serialize _ _ Hn), bind_Ok, Nat2Z.id.
  now apply deserialize_items_serialize.
Qed.

End vector_round_trip.

Section stream_round_trip.

Context `{C : Codecs} {HC : LawfulCodecs C}.

Lemma read_write_dataset ds :
  representable_dataset ds -> read_dataset (write_dataset ds) = Ok ds.
Proof.
  destruct HC as [Hm Hs Hu]. intros (Hi & Hl & Hn).
  unfold read_dataset, write_dataset. rewrite app_nil_l, <- app_assoc.
  rewrite (@vector_codec_lawful _ _ _ Hu Hm _ _ Hi), bind_Ok.
  rewrite (@vector_codec_lawful _ _ _ Hu Hs _ _ Hl), bind_Ok.
  rewrite <- (app_nil_r (serialize (numeric_labels ds))).
  rewrite (@vector_codec_lawful _ _ _ Hu Hu _ _ Hn), bind_Ok.
  now destruct ds.
Qed.

End stream_round_trip.

(** *** The concrete format *)

Section wire.

Import Wire.

Local Arguments pack_payload : simpl never.
Local Arguments unpack_payload : simpl never.
Local Opaque Z.pow.

Lemma pack_payload_step fuel item :
  pack_payload (S fuel) item =
    byte_of_Z (Z.land item 255) ::
    (if Z.shiftr item 8 =? 0 then [] else pack_payload fuel (Z.shiftr item 8)).
Proof. reflexivity. Qed.

Lemma unpack_payload_cons b rest :
  unpack_payload (b :: rest) = Z.lor (Z_of_byte b) (Z.shiftl (unpack_payload rest) 8).
Proof. reflexivity. Qed.

Lemma Z_of_byte_of_Z z : 0 <= z < 256 -> Z_of_byte (byte_of_Z z) = z.
Proof.
  intros Hz. unfold Z_of_byte, byte_of_Z. rewrite Z.mod_small by exact Hz.
  destruct (Byte.of_N (Z.to_N z)) as [b|] eqn:Hb; simpl.
  - apply Byte.to_of_N in Hb. rewrite Hb. lia.
  - apply Byte.of_N_None_iff in Hb. lia.
Qed.

Lemma Z_of_byte_range b : 0 <= Z_of_byte b < 256.
Proof. unfold Z_of_byte. pose proof (Byte.to_N_bounded b). lia. Qed.

Lemma low_byte_range z : 0 <= Z.land z 255 < 256.
Proof.
  change 255 with (Z.ones 8). rewrite Z.land_ones by lia.
  apply Z.mod_pos_bound. lia.
Qed.

(** An integer is its low byte joined with the rest shifted back. *)
Lemma split_low_byte z :
  Z.lor (Z.land z 255) (Z.shiftl (Z.shiftr z 8) 8) = z.
Proof.
  apply Z.bits_inj'. intros n Hn.
  rewrite Z.lor_spec, Z.land_spec.
  change 255 with (Z.ones 8). rewrite Z.testbit_ones_nonneg by lia.
  destruct (Z.ltb_spec n 8) as [Hlt|Hge].
  - rewrite Z.shiftl_spec_low by lia. now rewrite andb_true_r, orb_false_r.
  - rewrite Z.shiftl_spec by lia. rewrite Z.shiftr_spec by lia.
    rewrite andb_false_r. simpl. f_equal. lia.
Qed.

Lemma pack_payload_round_trip fuel : forall item,
  0 <= item < 256 ^ Z.of_nat fuel -> (0 < fuel)%nat ->
  unpack_payload (pack_payload fuel item) = item /\
  (1 <= length (pack_payload fuel item) <= fuel)%nat.
Proof.
  induction fuel as [|fuel IH]; intros item Hitem Hfuel; [lia|].
  rewrite pack_payload_step.
  assert (Hshift : 0 <= Z.shiftr item 8 < 256 ^ Z.of_nat fuel).
  { rewrite Z.shiftr_div_pow2 by lia. change (2 ^ 8) with 256.
    rewrite Nat2Z.inj_succ, Z.pow_succ_r in Hitem by lia.
    split; [apply Z.div_pos; lia|apply Z.div_lt_upper_bound; lia]. }
  destruct (Z.eqb_spec (Z.shiftr item 8) 0) as [Hz|Hnz].
  - rewrite unpack_payload_cons. rewrite Z_of_byte_of_Z by apply low_byte_range.
    pose proof (split_low_byte item) as Hs. rewrite Hz in Hs.
    change (unpack_payload []) with 0. cbn [length].
    split; [exact Hs|lia].
  - assert (Hpos : (0 < fuel)%nat).
    { destruct fuel; [rewrite Z.pow_0_r in Hshift; lia|lia]. }
    destruct (IH (Z.shiftr item 8) Hshift Hpos) as [Hu Hl].
    rewrite unpack_payload_cons. cbn [length].
    rewrite Z_of_byte_of_Z by apply low_byte_range.
    rewrite Hu. split; [apply split_low_byte|lia].
Qed.

Lemma read_bytes_app (p rest : list byte) :
  read_bytes (length p) (p ++ rest) = Ok (p, rest).
Proof.
  unfold read_bytes.
  destruct (Nat.ltb_spec (length (p ++ rest)) (length p)) as [H|H].
  - rewrite length_app in H. lia.
  - now rewrite take_app_length, drop_app_length.
Qed.

Lemma ulong_wire_lawful : @Lawful Z ulong_wire.
Proof.
  intros item rest Hitem. cbn [representable ulong_wire] in Hitem.
  destruct (pack_payload_round_trip 8 item) as [Hu Hl]; [exact Hitem|lia|].
  cbn [serialize deserialize ulong_wire app].
  rewrite Z_of_byte_of_Z by lia.
  destruct (Z.ltb_spec (Z.of_nat (length (pack_payload 8 item))) 1); [lia|].
  destruct (Z.ltb_spec 8 (Z.of_nat (length (pack_payload 8 item)))); [lia|].
  cbn [orb]. rewrite Nat2Z.id, read_bytes_app, bind_Ok. cbn [mret result_ret].
  now rewrite Hu.
Qed.

Lemma list_byte_of_string_length s :
  length (list_byte_of_string s) = String.length s.
Proof.
  unfold list_byte_of_string. rewrite length_map.
  induction s; simpl; congruence.
Qed.

Lemma string_wire_deserialize (s : list byte) :
  @deserialize _ string_wire s =
    ('(n, s') ← @deserialize _ ulong_wire s;
     '(chars, s'') ← read_bytes (Z.to_nat n) s';
     mret (string_of_list_byte chars, s'')).
Proof. reflexivity. Qed.

Lemma string_wire_serialize (str : string) :
  @serialize _ string_wire str =
    @serialize _ ulong_wire (Std.size str) ++ list_byte_of_string str.
Proof. reflexivity. Qed.

Lemma string_wire_lawful : @Lawful string string_wire.
Proof.
  intros str rest Hstr. cbn [representable string_wire] in Hstr.
  rewrite string_wire_deserialize, string_wire_serialize.
  rewrite <- app_assoc.
  rewrite (ulong_wire_lawful (Std.size str)), bind_Ok.
  2: { cbn [representable ulong_wire]. pose proof (size_nonneg str). lia. }
  unfold Std.size at 1. rewrite Nat2Z.id, <- list_byte_of_string_length.
  rewrite read_bytes_app, bind_Ok. cbn [mret result_ret].
  now rewrite string_of_list_byte_of_string.
Qed.

Lemma pixel_wire_lawful : @Lawful rgb_pixel pixel_wire.
Proof. intros [r g b] rest _. reflexivity. Qed.

Lemma matrix_wire_deserialize (s : list byte) :
  @deserialize _ matrix_wire s =
    ('(rows, s) ← @deserialize _ ulong_wire s;
     '(cols, s) ← @deserialize _ ulong_wire s;
     '(px, s) ← @deserialize_items _ pixel_wire (Z.to_nat (rows * cols)) s;
     mret ({| nr := rows; nc := cols; pixels := px |}, s)).
Proof. reflexivity. Qed.

Lemma matrix_wire_serialize (m : matrix) :
  @serialize _ matrix_wire m =
    @serialize _ ulong_wire (nr m) ++ @serialize _ ulong_wire (nc m) ++
    (p ← pixels m; @serialize _ pixel_wire p).
Proof. reflexivity. Qed.

Lemma matrix_wire_lawful : @Lawful matrix matrix_wire.
Proof.
  intros [rows cols px] rest (Hr & Hc & Hlen). cbn [nr nc pixels] in Hr, Hc, Hlen.
  rewrite matrix_wire_deserialize, matrix_wire_serialize. cbn [nr nc pixels].
  rewrite <- !app_assoc.
  rewrite (ulong_wire_lawful rows) by exact Hr. rewrite bind_Ok.
  rewrite (ulong_wire_lawful cols) by exact Hc. rewrite bind_Ok.
  rewrite <- Hlen.
  rewrite (@deserialize_items_serialize _ _ pixel_wire_lawful).
  - reflexivity.
  - apply Forall_forall. intros; exact I.
Qed.

Lemma wire_codecs_lawful : LawfulCodecs codecs.
Proof.
  constructor.
  - exact matrix_wire_lawful.
  - exact string_wire_lawful.
  - exact ulong_wire_lawful.
Qed.

End wire.

(** C4. With encoders and decoders that honour the round-trip contract,
    the stream written as images, then labels, then numeric labels reads
    back, in the same order, as the very dataset that was written: the same
    number of samples with the same pixels, textual labels and numeric
    labels at the same positions; and so does the file the builder leaves
    on disk when the splitter opens it. *)
Theorem dataset_round_trip `{C : Codecs} (HC : LawfulCodecs C)
    (ds : imagenet_dataset) (d : disk) (file : string) :
  representable_dataset ds ->
  read_dataset (write_dataset ds) = Ok ds /\
  (open_for_reading (<[file := write_dataset ds]> d) file ≫= read_dataset) = Ok ds.
Proof.
  intros Hds. split; [now apply read_write_dataset|].
  unfold open_for_reading. rewrite lookup_insert_eq, bind_Ok.
  now apply read_write_dataset.
Qed.

Lemma dataset_round_trip_witness :
  @read_dataset Wire.codecs (@write_dataset Wire.codecs sample_dataset) = Ok sample_dataset /\
  (open_for_reading
     (<["imagenet.dat"%string := @write_dataset Wire.codecs sample_dataset]> ∅)
     "imagenet.dat" ≫= @read_dataset Wire.codecs) = Ok sample_dataset.
Proof.
  apply (@dataset_round_trip Wire.codecs wire_codecs_lawful sample_dataset ∅ "imagenet.dat").
  unfold representable_dataset, sample_dataset, SIZE_MODULUS. simpl.
  repeat split; try lia; repeat constructor; simpl; try lia; try reflexivity.
Defined.

(** ** Dataset splitter: the index partition *)

Section selection.

Context {A : Type}.
Implicit Types (v : list A) (indices : list Z).

Lemma at_index_in_bounds v i :
  in_bounds v i -> exists x, Splitter.at_index v i = Ok x /\ select v [i] = [x].
Proof.
  intros [Hlo Hhi]. unfold Splitter.at_index, select. simpl.
  destruct (Z.ltb_spec i 0); [lia|].
  destruct (lookup_lt_is_Some_2 v (Z.to_nat i)) as [x Hx]; [lia|].
  rewrite Hx. eauto.
Qed.

Lemma select_app v l1 l2 : select v (l1 ++ l2) = select v l1 ++ select v l2.
Proof. apply omap_app. Qed.

Lemma select_cons v i l : select v (i :: l) = select v [i] ++ select v l.
Proof. apply (select_app v [i] l). Qed.

Lemma select_perm v l1 l2 : l1 ≡ₚ l2 -> select v l1 ≡ₚ select v l2.
Proof. intros H. unfold select. now rewrite H. Qed.

Lemma select_length v l : Forall (in_bounds v) l -> length (select v l) = length l.
Proof.
  induction 1 as [|i l Hi _ IH]; [reflexivity|].
  rewrite select_cons, length_app, IH.
  destruct (at_index_in_bounds v i Hi) as (x & _ & ->). reflexivity.
Qed.

(** Selecting at [0, 1, ..., n - 1] gives the vector back. *)
Lemma select_seqZ_from pre v :
  select (pre ++ v) (seqZ (Z.of_nat (length pre)) (Z.of_nat (length v))) = v.
Proof.
  revert pre. induction v as [|x v IH]; intros pre; [reflexivity|].
  rewrite seqZ_cons by (simpl; lia). rewrite select_cons.
  replace (Z.pred (Z.of_nat (length (x :: v)))) with (Z.of_nat (length v))
    by (simpl; lia).
  replace (Z.succ (Z.of_nat (length pre))) with (Z.of_nat (length (pre ++ [x])))
    by (rewrite length_app; simpl; lia).
  replace (pre ++ x :: v) with ((pre ++ [x]) ++ v) at 2 by now rewrite <- app_assoc.
  rewrite IH. unfold select. simpl.
  destruct (Z.ltb_spec (Z.of_nat (length pre)) 0); [lia|].
  rewrite Nat2Z.id, list_lookup_middle by reflexivity. reflexivity.
Qed.

Lemma select_seqZ v : select v (seqZ 0 (Z.of_nat (length v))) = v.
Proof. apply (select_seqZ_from [] v). Qed.

Lemma select_shuffled v indices :
  indices ≡ₚ seqZ 0 (Z.of_nat (length v)) -> select v indices ≡ₚ v.
Proof. intros H. rewrite (select_perm _ _ _ H). now rewrite select_seqZ. Qed.

Lemma shuffled_in_bounds v indices :
  indices ≡ₚ seqZ 0 (Z.of_nat (length v)) -> Forall (in_bounds v) indices.
Proof.
  intros H. rewrite H. apply Forall_forall. intros i Hi.
  apply elem_of_seqZ in Hi. unfold in_bounds. lia.
Qed.

End selection.

Section split_loop.

Variables (ds : imagenet_dataset) (split_point : Z).

(** The loop sends the indices met at positions below [split_point] to
    the training vectors and the others to the testing vectors, each in
    the order met. *)
Lemma split_loop_spec indices : forall i out,
  Forall (in_bounds (images ds)) indices ->
  Forall (in_bounds (numeric_labels ds)) indices ->
  let k := Z.to_nat (split_point - i) in
  Splitter.split_loop ds split_point indices i out =
    Ok {| Splitter.training_images :=
            Splitter.training_images out ++ select (images ds) (take k indices);
          Splitter.training_labels :=
            Splitter.training_labels out ++ select (numeric_labels ds) (take k indices);
          Splitter.testing_images :=
            Splitter.testing_images out ++ select (images ds) (drop k indices);
          Splitter.testing_labels :=
            Splitter.testing_labels out ++ select (numeric_labels ds) (drop k indices) |}.
Proof.
  induction indices as [|idx rest IH]; intros i out Himg Hlbl k.
  - simpl. rewrite take_nil, drop_nil. simpl. rewrite !app_nil_r. now destruct out.
  - inversion Himg as [|? ? Hi Hrest]; subst.
    inversion Hlbl as [|? ? Hl Hrest']; subst.
    destruct (at_index_in_bounds _ _ Hi) as (img & Himg1 & Hsel1).
    destruct (at_index_in_bounds _ _ Hl) as (lbl & Hlbl1 & Hsel2).
    simpl Splitter.split_loop. rewrite Himg1, bind_Ok, Hlbl1, bind_Ok.
    rewrite (IH (i + 1) _ Hrest Hrest'). cbv zeta.
    destruct (Z.ltb_spec i split_point) as [Hlt|Hge].
    + replace k with (S (Z.to_nat (split_point - (i + 1)))) by lia.
      cbn [take drop Splitter.training_images Splitter.training_labels
           Splitter.testing_images Splitter.testing_labels].
      rewrite (select_cons (images ds) idx), (select_cons (numeric_labels ds) idx).
      rewrite Hsel1, Hsel2, <- !app_assoc. reflexivity.
    + replace k with 0%nat by lia.
      replace (Z.to_nat (split_point - (i + 1))) with 0%nat by lia.
      cbn [take drop Splitter.training_images Splitter.training_labels
           Splitter.testing_images Splitter.testing_labels].
      rewrite (select_cons (images ds) idx), (select_cons (numeric_labels ds) idx).
      rewrite Hsel1, Hsel2, <- !app_assoc. simpl. rewrite !app_nil_r. reflexivity.
Qed.

End split_loop.

Section reserve.

Lemma reserve_Ok max_size k :
  Splitter.reserve max_size k = Ok tt <-> k <= max_size.
Proof.
  unfold Splitter.reserve. destruct (Z.ltb_spec max_size k); split; intros; try lia;
    congruence.
Qed.

Lemma reserve_cases max_size k :
  Splitter.reserve max_size k = Ok tt \/
  Splitter.reserve max_size k = Throw length_error.
Proof. unfold Splitter.reserve. destruct (max_size <? k); auto. Qed.

End reserve.

Section split_dataset.

Variables (env : Splitter.environment) (ds : imagenet_dataset)
          (test_fraction : Splitter.double).

Hypothesis shuffle_perm : forall l, Splitter.shuffle env l ≡ₚ l.
Hypothesis aligned : length (numeric_labels ds) = length (images ds).

Local Abbreviation n := (Z.of_nat (length (images ds))).
Local Abbreviation shuffled := (Splitter.shuffle env (seqZ 0 n)).

Lemma split_dataset_returns sp :
  Splitter.compute_split_point n test_fraction = Ok sp ->
  sp <= Splitter.max_size_images env -> sp <= Splitter.max_size_labels env ->
  wrap (n - sp) <= Splitter.max_size_images env ->
  wrap (n - sp) <= Splitter.max_size_labels env ->
  Splitter.split_dataset env ds test_fraction = Ok (split_at ds shuffled sp).
Proof.
  intros Hsp H1 H2 H3 H4. unfold Splitter.split_dataset. rewrite Hsp, bind_Ok.
  rewrite (proj2 (reserve_Ok _ _) H1), bind_Ok.
  rewrite (proj2 (reserve_Ok _ _) H2), bind_Ok.
  rewrite (proj2 (reserve_Ok _ _) H3), bind_Ok.
  rewrite (proj2 (reserve_Ok _ _) H4), bind_Ok.
  rewrite split_loop_spec.
  - rewrite Z.sub_0_r. reflexivity.
  - apply shuffled_in_bounds, shuffle_perm.
  - apply shuffled_in_bounds. rewrite aligned. apply shuffle_perm.
Qed.

Lemma split_dataset_inv out :
  Splitter.split_dataset env ds test_fraction = Ok out ->
  exists sp,
    Splitter.compute_split_point n test_fraction = Ok sp /\
    sp <= Splitter.max_size_images env /\ sp <= Splitter.max_size_labels env /\
    wrap (n - sp) <= Splitter.max_size_images env /\
    wrap (n - sp) <= Splitter.max_size_labels env /\
    out = split_at ds shuffled sp.
Proof.
  intros H.
  destruct (Splitter.compute_split_point n test_fraction) as [sp| |] eqn:Hsp.
  2,3: unfold Splitter.split_dataset in H; rewrite Hsp in H; discriminate.
  assert (Hres : sp <= Splitter.max_size_images env /\ sp <= Splitter.max_size_labels env /\
                 wrap (n - sp) <= Splitter.max_size_images env /\
                 wrap (n - sp) <= Splitter.max_size_labels env).
  { unfold Splitter.split_dataset in H. rewrite Hsp, bind_Ok in H.
    rewrite <- !reserve_Ok.
    destruct (reserve_cases (Splitter.max_size_images env) sp) as [E1|E1];
      rewrite E1 in H; [|discriminate].
    destruct (reserve_cases (Splitter.max_size_labels env) sp) as [E2|E2];
      rewrite E2 in H; [|discriminate].
    destruct (reserve_cases (Splitter.max_size_images env) (wrap (n - sp))) as [E3|E3];
      rewrite E3 in H; [|discriminate].
    destruct (reserve_cases (Splitter.max_size_labels env) (wrap (n - sp))) as [E4|E4];
      rewrite E4 in H; [|discriminate].
    auto. }
  destruct Hres as (H1 & H2 & H3 & H4).
  exists sp. split; [reflexivity|]. do 4 (split; [assumption|]).
  rewrite (split_dataset_returns sp Hsp H1 H2 H3 H4) in H.
  injection H as <-. reflexivity.
Qed.

Lemma shuffled_length : length shuffled = length (images ds).
Proof.
  rewrite shuffle_perm, length_seqZ. lia.
Qed.

Lemma split_at_lengths sp :
  let k := (Z.to_nat sp `min` length (images ds))%nat in
  length (Splitter.training_images (split_at ds shuffled sp)) = k /\
  length (Splitter.training_labels (split_at ds shuffled sp)) = k /\
  length (Splitter.testing_images (split_at ds shuffled sp)) = (length (images ds) - k)%nat /\
  length (Splitter.testing_labels (split_at ds shuffled sp)) = (length (images ds) - k)%nat.
Proof.
  assert (Hi : Forall (in_bounds (images ds)) shuffled)
    by apply shuffled_in_bounds, shuffle_perm.
  assert (Hl : Forall (in_bounds (numeric_labels ds)) shuffled).
  { apply shuffled_in_bounds. rewrite aligned. apply shuffle_perm. }
  simpl. rewrite !select_length
    by first [now apply Forall_take | now apply Forall_drop].
  rewrite !length_take, !length_drop, shuffled_length. lia.
Qed.

Lemma split_at_perm sp :
  Splitter.training_images (split_at ds shuffled sp) ++ Splitter.testing_images (split_at ds shuffled sp)
    ≡ₚ images ds /\
  Splitter.training_labels (split_at ds shuffled sp) ++ Splitter.testing_labels (split_at ds shuffled sp)
    ≡ₚ numeric_labels ds.
Proof.
  simpl. rewrite <- !select_app, !take_drop. split.
  - apply select_shuffled, shuffle_perm.
  - apply select_shuffled. rewrite aligned. apply shuffle_perm.
Qed.

End split_dataset.

(** ** Dataset splitter: the split point in binary64 *)

Section binary64.

Import Splitter.

Lemma digits2_pos_size p : digits2_pos p = Pos.size p.
Proof. induction p; simpl; congruence. Qed.

(** A positive integer below [2 ^ 53] has at most 53 binary digits. *)
Lemma digits2_pos_bound p : Z.pos p < 2 ^ 53 -> (digits2_pos p <= 53)%positive.
Proof.
  intros Hp. rewrite digits2_pos_size.
  destruct (Pos.leb_spec (Pos.size p) 53) as [H|H]; [exact H|exfalso].
  pose proof (Pos.size_le p) as Hle.
  apply Pos2Z.pos_le_pos in Hle. rewrite Pos2Z.inj_pow in Hle.
  change (Z.pos 2) with 2 in Hle. rewrite (Pos2Z.inj_xO p) in Hle.
  assert (H54 : 2 ^ 54 <= 2 ^ Z.pos (Pos.size p)) by (apply Z.pow_le_mono_r; lia).
  change (2 ^ 54) with (2 * 2 ^ 53) in H54. lia.
Qed.

Lemma digits2_pos_iter_xO p k :
  digits2_pos (Pos.iter xO p k) = (digits2_pos p + k)%positive.
Proof.
  induction k as [|k IH] using Pos.peano_ind.
  - simpl. lia.
  - rewrite Pos.iter_succ. simpl. rewrite IH. lia.
Qed.

Lemma Zpos_iter_xO p k : Z.pos (Pos.iter xO p k) = Z.shiftl (Z.pos p) (Z.pos k).
Proof. exact (N2Z.inj_shiftl (N.pos p) (N.pos k)). Qed.

(** A mantissa of 53 digits is already in place: no shift. *)
Lemma shr_fexp_normal m e :
  digits2_pos m = 53%positive -> -1074 <= e ->
  shr_fexp prec emax (Z.pos m) e loc_Exact =
    ({| shr_m := Z.pos m; shr_r := false; shr_s := false |}, e).
Proof.
  intros Hd He. unfold shr_fexp, Zdigits2. rewrite Hd.
  assert (Hf : fexp prec emax (53 + e) = e) by (unfold fexp, emin, prec, emax; lia).
  rewrite Hf, Z.sub_diag. reflexivity.
Qed.

Lemma binary_round_aux_normal m e :
  digits2_pos m = 53%positive -> -1074 <= e <= 971 ->
  binary_round_aux prec emax false (Z.pos m) e loc_Exact = S754_finite false m e.
Proof.
  intros Hd He. unfold binary_round_aux.
  rewrite (shr_fexp_normal m e Hd) by lia.
  cbn [shr_m loc_of_shr_record round_nearest_even].
  rewrite (shr_fexp_normal m e Hd) by lia.
  cbn [shr_m]. unfold prec, emax.
  destruct (Z.leb_spec e (1024 - 53)); [reflexivity|lia].
Qed.

(** Conversion of an integer below [2 ^ 53] is exact. *)
Lemma double_of_size_t_exact p :
  Z.pos p < 2 ^ 53 ->
  exists m e,
    double_of_size_t (Z.pos p) = S754_finite false m e /\
    digits2_pos m = 53%positive /\ -52 <= e <= 0 /\
    Z.shiftl (Z.pos m) e = Z.pos p.
Proof.
  intros Hp. pose proof (digits2_pos_bound p Hp) as Hd.
  unfold double_of_size_t, binary_normalize, binary_round.
  assert (Hf : fexp prec emax (Z.pos (digits2_pos p) + 0) = Z.pos (digits2_pos p) - 53)
    by (unfold fexp, emin, prec, emax; lia).
  rewrite Hf. unfold shl_align. rewrite Z.sub_0_r.
  destruct (Z.pos (digits2_pos p) - 53) as [|k|k] eqn:Hk; [|lia|].
  - assert (H53 : digits2_pos p = 53%positive) by lia.
    exists p, 0. rewrite binary_round_aux_normal by (auto; lia). auto with zarith.
  - assert (H53 : digits2_pos (Pos.iter xO p k) = 53%positive).
    { rewrite digits2_pos_iter_xO. lia. }
    exists (Pos.iter xO p k), (Z.neg k).
    rewrite binary_round_aux_normal by (auto; lia).
    split; [reflexivity|]. split; [exact H53|]. split; [lia|].
    rewrite Zpos_iter_xO.
    change (Z.shiftl (Z.shiftl (Z.pos p) (Z.pos k)) (Z.neg k))
      with (Z.shiftr (Z.shiftl (Z.pos p) (Z.pos k)) (Z.pos k)).
    rewrite Z.shiftr_shiftl_l by lia. now rewrite Z.sub_diag.
Qed.

Lemma shr_52 m :
  SpecFloat.iter_pos shr_1 52
    {| shr_m := Z.pos (4503599627370496 * m); shr_r := false; shr_s := false |} =
    {| shr_m := Z.pos m; shr_r := false; shr_s := false |}.
Proof. reflexivity. Qed.

Lemma digits2_pos_shift_52 m :
  digits2_pos m = 53%positive -> digits2_pos (4503599627370496 * m) = 105%positive.
Proof.
  intros Hd. change (4503599627370496 * m)%positive with (Pos.iter xO m 52).
  rewrite digits2_pos_iter_xO, Hd. reflexivity.
Qed.

(** Multiplying a normal number by [1.0] changes nothing. *)
Lemma double_mul_one m e :
  digits2_pos m = 53%positive -> -1022 <= e <= 971 ->
  double_mul (S754_finite false m e) double_one = S754_finite false m e.
Proof.
  intros Hd He. unfold double_mul, double_one, SFmul. cbn [xorb].
  rewrite Pos.mul_comm. unfold binary_round_aux at 1.
  unfold shr_fexp at 1. unfold Zdigits2. rewrite (digits2_pos_shift_52 m Hd).
  assert (Hf : fexp prec emax (105 + (e + -52)) = e)
    by (unfold fexp, emin, prec, emax; lia).
  rewrite Hf. replace (e - (e + -52)) with 52 by lia.
  cbn [shr shr_record_of_loc]. rewrite shr_52.
  cbn [shr_m loc_of_shr_record round_nearest_even].
  replace (e + -52 + 52) with e by lia.
  rewrite (shr_fexp_normal m e Hd) by lia.
  cbn [shr_m]. unfold prec, emax.
  destruct (Z.leb_spec e (1024 - 53)); [reflexivity|lia].
Qed.

(** [1.0 - 0.0] and [1.0 - (-0.0)] are [1.0]; [1.0 - 1.0] is [+0.0]. *)
Lemma double_sub_one_zero s : double_sub double_one (S754_zero s) = double_one.
Proof. reflexivity. Qed.

Lemma double_sub_one_one : double_sub double_one double_one = S754_zero false.
Proof. vm_compute. reflexivity. Qed.

(** With a test fraction of zero the split point is the size itself. *)
Lemma compute_split_point_zero n s :
  0 <= n < 2 ^ 53 -> compute_split_point n (S754_zero s) = Ok n.
Proof.
  intros Hn. unfold compute_split_point. rewrite double_sub_one_zero.
  destruct n as [|p|p]; [reflexivity| |lia].
  destruct (double_of_size_t_exact p) as (m & e & -> & Hd & He & Hv); [lia|].
  rewrite double_mul_one by (auto; lia).
  unfold size_t_of_double. rewrite Hv.
  destruct (Z.ltb_spec (Z.pos p) SIZE_MODULUS); [reflexivity|].
  unfold SIZE_MODULUS in *. lia.
Qed.

(** With a test fraction of one the split point is zero. *)
Lemma compute_split_point_one n :
  0 <= n < 2 ^ 53 -> compute_split_point n double_one = Ok 0.
Proof.
  intros Hn. unfold compute_split_point. rewrite double_sub_one_one.
  destruct n as [|p|p]; [reflexivity| |lia].
  destruct (double_of_size_t_exact p) as (m & e & -> & _); [lia|].
  reflexivity.
Qed.

(** A computed split point is a [size_t]. *)
Lemma compute_split_point_range n tf sp :
  compute_split_point n tf = Ok sp -> 0 <= sp < SIZE_MODULUS.
Proof.
  unfold compute_split_point, size_t_of_double.
  destruct (double_mul _ _) as [s|s| |s m e]; try discriminate.
  - intros [= <-]. unfold SIZE_MODULUS. lia.
  - destruct s.
    + destruct (Z.shiftl (Z.pos m) e =? 0); [|discriminate].
      intros [= <-]. unfold SIZE_MODULUS. lia.
    + destruct (Z.ltb_spec (Z.shiftl (Z.pos m) e) SIZE_MODULUS); [|discriminate].
      intros [= <-]. split; [|assumption].
      apply Z.shiftl_nonneg. lia.
Qed.

End binary64.

Section splitter_entry.

Context `{Codecs}.

(** Once the stream has been read, the splitter is [split_dataset]. *)
Lemma load_stable_imagenet_1k_read env (d : disk) file ds tf :
  (open_for_reading d file ≫= read_dataset) = Ok ds ->
  Splitter.load_stable_imagenet_1k env d file tf = Splitter.split_dataset env ds tf.
Proof.
  unfold Splitter.load_stable_imagenet_1k.
  destruct (open_for_reading d file) as [s| |]; simpl; try discriminate.
  intros ->. reflexivity.
Qed.

(** When both reservations of [sp] elements succeed under a [max_size]
    below [2 ^ 63], the split point does not exceed the size. *)
Lemma split_point_le_size n sp max_size :
  0 <= n -> 0 <= sp -> max_size < 2 ^ 63 ->
  sp <= max_size -> wrap (n - sp) <= max_size -> sp <= n.
Proof.
  intros Hn Hsp Hmax H1 H2.
  destruct (Z.le_gt_cases sp n) as [Hle|Hgt]; [exact Hle|exfalso].
  unfold wrap, SIZE_MODULUS in H2.
  replace (n - sp) with ((n - sp + 2 ^ 64) + (-1) * 2 ^ 64) in H2 by lia.
  rewrite Z.mod_add in H2 by lia.
  rewrite Z.mod_small in H2; lia.
Qed.

End splitter_entry.

(** C2. For a stored dataset of N samples and a shuffle that permutes the
    index vector, whenever the splitter returns, the training and testing
    images (and labels) number N together and the numeric labels of the two
    outputs are, as a multiset, those of the stored dataset (likewise the
    images); and the splitter does return whenever the split point is
    computed and the four reservations are within [max_size]. *)
Theorem split_is_complete `{Codecs} env (d : disk) file ds tf :
  (open_for_reading d file ≫= read_dataset) = Ok ds ->
  (forall l, Splitter.shuffle env l ≡ₚ l) ->
  length (numeric_labels ds) = length (images ds) ->
  (forall out,
     Splitter.load_stable_imagenet_1k env d file tf = Ok out ->
     (length (Splitter.training_images out) + length (Splitter.testing_images out))%nat
       = length (images ds) /\
     (length (Splitter.training_labels out) + length (Splitter.testing_labels out))%nat
       = length (images ds) /\
     Splitter.training_labels out ++ Splitter.testing_labels out ≡ₚ numeric_labels ds /\
     Splitter.training_images out ++ Splitter.testing_images out ≡ₚ images ds) /\
  (forall sp,
     Splitter.compute_split_point (Z.of_nat (length (images ds))) tf = Ok sp ->
     sp <= Splitter.max_size_images env -> sp <= Splitter.max_size_labels env ->
     wrap (Z.of_nat (length (images ds)) - sp) <= Splitter.max_size_images env ->
     wrap (Z.of_nat (length (images ds)) - sp) <= Splitter.max_size_labels env ->
     exists out, Splitter.load_stable_imagenet_1k env d file tf = Ok out).
Proof.
  intros Hread Hperm Hlen. rewrite (load_stable_imagenet_1k_read env d file ds tf Hread).
  split.
  - intros out Hout.
    apply (split_dataset_inv env ds tf Hperm Hlen) in Hout as (sp & _ & _ & _ & _ & _ & ->).
    destruct (split_at_lengths env ds Hperm Hlen sp) as (L1 & L2 & L3 & L4).
    destruct (split_at_perm env ds Hperm Hlen sp) as (P1 & P2).
    rewrite L1, L2, L3, L4. repeat split; try lia; assumption.
  - intros sp Hsp H1 H2 H3 H4. eexists.
    apply (split_dataset_returns env ds tf Hperm Hlen sp Hsp H1 H2 H3 H4).
Qed.

Lemma split_is_complete_witness :
  (forall out,
     @Splitter.load_stable_imagenet_1k Wire.codecs sample_split_env
       (<["imagenet.dat"%string := @write_dataset Wire.codecs sample_dataset]> ∅)
       "imagenet.dat" (nearest_double 4 10) = Ok out ->
     (length (Splitter.training_images out) + length (Splitter.testing_images out))%nat
       = length (images sample_dataset) /\
     (length (Splitter.training_labels out) + length (Splitter.testing_labels out))%nat
       = length (images sample_dataset) /\
     Splitter.training_labels out ++ Splitter.testing_labels out
       ≡ₚ numeric_labels sample_dataset /\
     Splitter.training_images out ++ Splitter.testing_images out ≡ₚ images sample_dataset) /\
  exists out,
    @Splitter.load_stable_imagenet_1k Wire.codecs sample_split_env
      (<["imagenet.dat"%string := @write_dataset Wire.codecs sample_dataset]> ∅)
      "imagenet.dat" (nearest_double 4 10) = Ok out.
Proof.
  destruct (@split_is_complete Wire.codecs sample_split_env
              (<["imagenet.dat"%string := @write_dataset Wire.codecs sample_dataset]> ∅)
              "imagenet.dat" sample_dataset (nearest_double 4 10)) as [Hsafe Hlive].
  - vm_compute. reflexivity.
  - intros l. apply reverse_Permutation.
  - reflexivity.
  - split; [exact Hsafe|].
    apply (Hlive 1); vm_compute; first [reflexivity | discriminate].
Defined.

(** C3, as the code has it.  The split point is the binary64 product of
    the size and [1.0 - test_fraction], each operation rounded to nearest,
    truncated to a [size_t].  Whenever the splitter returns (with
    [max_size] below [2 ^ 63]), the training set has exactly that many
    samples and the testing set the remaining ones.  For a dataset of fewer
    than [2 ^ 53] samples within [max_size], a test fraction of zero makes
    the splitter return an empty testing set, and a test fraction of one an
    empty training set. *)
Theorem split_sizes_follow_rounded_product `{Codecs} env (d : disk) file ds tf :
  (open_for_reading d file ≫= read_dataset) = Ok ds ->
  (forall l, Splitter.shuffle env l ≡ₚ l) ->
  length (numeric_labels ds) = length (images ds) ->
  Splitter.max_size_images env < 2 ^ 63 ->
  let n := Z.of_nat (length (images ds)) in
  (forall out,
     Splitter.load_stable_imagenet_1k env d file tf = Ok out ->
     exists sp,
       Splitter.compute_split_point n tf = Ok sp /\ 0 <= sp <= n /\
       Z.of_nat (length (Splitter.training_images out)) = sp /\
       Z.of_nat (length (Splitter.training_labels out)) = sp /\
       Z.of_nat (length (Splitter.testing_images out)) = n - sp /\
       Z.of_nat (length (Splitter.testing_labels out)) = n - sp) /\
  (n < 2 ^ 53 -> n <= Splitter.max_size_images env -> n <= Splitter.max_size_labels env ->
   (forall s, tf = S754_zero s ->
      exists out,
        Splitter.load_stable_imagenet_1k env d file tf = Ok out /\
        Splitter.testing_images out = [] /\ Splitter.testing_labels out = [] /\
        Z.of_nat (length (Splitter.training_images out)) = n) /\
   (tf = Splitter.double_one ->
      exists out,
        Splitter.load_stable_imagenet_1k env d file tf = Ok out /\
        Splitter.training_images out = [] /\ Splitter.training_labels out = [] /\
        Z.of_nat (length (Splitter.testing_images out)) = n)).
Proof.
  intros Hread Hperm Hlen Hmax n.
  rewrite (load_stable_imagenet_1k_read env d file ds tf Hread).
  split.
  - intros out Hout.
    apply (split_dataset_inv env ds tf Hperm Hlen) in Hout
      as (sp & Hsp & H1 & _ & H3 & _ & ->).
    pose proof (compute_split_point_range _ _ _ Hsp) as Hrange.
    assert (Hle : sp <= n).
    { apply (split_point_le_size n sp (Splitter.max_size_images env)); unfold n; lia. }
    exists sp. split; [exact Hsp|]. split; [lia|].
    destruct (split_at_lengths env ds Hperm Hlen sp) as (L1 & L2 & L3 & L4).
    rewrite L1, L2, L3, L4. unfold n in *. lia.
  - intros Hn53 Hn1 Hn2. split.
    + intros s ->. eexists. split.
      * apply (split_dataset_returns env ds _ Hperm Hlen n).
        -- apply compute_split_point_zero. unfold n. lia.
        -- exact Hn1.
        -- exact Hn2.
        -- rewrite Z.sub_diag. change (wrap 0) with 0. unfold n in *. lia.
        -- rewrite Z.sub_diag. change (wrap 0) with 0. unfold n in *. lia.
      * destruct (split_at_lengths env ds Hperm Hlen n) as (L1 & _ & L3 & L4).
        unfold n in L3, L4. rewrite Nat2Z.id, Nat.min_id, Nat.sub_diag in L3, L4.
        apply length_zero_iff_nil in L3, L4.
        unfold n in L1. rewrite Nat2Z.id, Nat.min_id in L1.
        unfold n. rewrite L1. auto.
    + intros ->. eexists. split.
      * apply (split_dataset_returns env ds _ Hperm Hlen 0).
        -- apply compute_split_point_one. unfold n. lia.
        -- unfold n in *. lia.
        -- unfold n in *. lia.
        -- rewrite Z.sub_0_r, wrap_small; unfold SIZE_MODULUS, n in *; lia.
        -- rewrite Z.sub_0_r, wrap_small; unfold SIZE_MODULUS, n in *; lia.
      * destruct (split_at_lengths env ds Hperm Hlen 0) as (_ & _ & L3 & _).
        rewrite L3. unfold n. split; [reflexivity|]. split; [reflexivity|].
        simpl. lia.
Qed.

Lemma split_sizes_follow_rounded_product_witness :
  exists out,
    @Splitter.load_stable_imagenet_1k Wire.codecs sample_split_env
      (<["imagenet.dat"%string := @write_dataset Wire.codecs sample_dataset]> ∅)
      "imagenet.dat" (S754_zero false) = Ok out /\
    Splitter.testing_images out = [] /\ Splitter.testing_labels out = [] /\
    Z.of_nat (length (Splitter.training_images out)) =
      Z.of_nat (length (images sample_dataset)).
Proof.
  destruct (@split_sizes_follow_rounded_product Wire.codecs sample_split_env
              (<["imagenet.dat"%string := @write_dataset Wire.codecs sample_dataset]> ∅)
              "imagenet.dat" sample_dataset (S754_zero false)) as [_ Hbound].
  - vm_compute. reflexivity.
  - intros l. apply reverse_Permutation.
  - reflexivity.
  - vm_compute. reflexivity.
  - destruct Hbound as [Hzero _].
    + vm_compute. reflexivity.
    + vm_compute. discriminate.
    + vm_compute. discriminate.
    + apply (Hzero false). reflexivity.
Defined.

(** C3 as stated fails.  The test fraction [0.05] is the [double]
    [7205759403792794 * 2 ^ -57], slightly above one twentieth; for twenty
    samples the code computes the split point 19 and a testing set of one
    sample, while the floor of [20 * (1 - test_fraction)] is 18.  Read with
    decimal fractions the equation fails too: for [0.9] and ten samples the
    code computes 0 where the floor of [10 * (1 - 9/10)] is 1.  Both
    fractions lie between zero and one. *)
Lemma split_point_is_not_exact_floor :
  let tf := S754_finite false 7205759403792794 (-57) in
  nearest_double 5 100 = tf /\
  SFleb (S754_zero false) tf = true /\
  SFleb tf Splitter.double_one = true /\
  Splitter.compute_split_point 20 tf = Ok 19 /\
  Splitter.exact_split_point 20 (Splitter.Q_of_double tf) = 18 /\
  (exists out,
     Splitter.split_dataset sample_split_env twenty_samples tf = Ok out /\
     length (Splitter.testing_images out) = 1%nat /\
     20 - Splitter.exact_split_point 20 (Splitter.Q_of_double tf) = 2) /\
  Splitter.compute_split_point 10 (nearest_double 9 10) = Ok 0 /\
  Splitter.exact_split_point 10 (9 # 10) = 1.
Proof.
  cbv zeta. repeat split; try (vm_compute; reflexivity).
  eexists. split; [vm_compute; reflexivity|]. split; vm_compute; reflexivity.
Qed.

(** * Further properties *)

(** ** Directory scanner *)

Section scanner_more.

Lemma find_from_first s1 c s2 : forall i,
  Forall (fun a => a <> c) (list_ascii_of_string s1) ->
  find_from (s1 ++ String c s2) c i = i + size s1.
Proof.
  induction s1 as [|a s1 IH]; intros i Hno.
  - rewrite append_nil. simpl. rewrite Ascii.eqb_refl. unfold size. simpl. lia.
  - rewrite append_cons. simpl in *. inversion Hno as [|? ? Ha Hs]; subst.
    destruct (Ascii.eqb_spec a c); [contradiction|].
    rewrite IH by exact Hs. unfold size. simpl String.length. lia.
Qed.

Lemma append_assoc s1 s2 s3 : ((s1 ++ s2) ++ s3 = s1 ++ (s2 ++ s3))%string.
Proof.
  induction s1 as [|a s1 IH]; [reflexivity|].
  rewrite !append_cons. now f_equal.
Qed.

Lemma records_of_labels d lbl :
  Forall (fun r => numeric_label r = lbl /\ label r = description (dir_name d))
         (records_of d lbl).
Proof.
  unfold records_of. apply Forall_fmap, Forall_forall. intros f _. simpl. auto.
Qed.

Lemma records_of_nil d lbl : holds_no_image d -> records_of d lbl = [].
Proof.
  intros H. unfold records_of. rewrite filter_none; [reflexivity|].
  unfold holds_no_image in H. rewrite Forall_forall in H.
  intros f Hf. rewrite (H f Hf). discriminate.
Qed.

(** A strictly ascending range is determined by its elements. *)
Lemma ascending_unique (l1 l2 : list directory) :
  StronglySorted (fun a b => name_less a b = true) l1 ->
  StronglySorted (fun a b => name_less a b = true) l2 ->
  l1 ≡ₚ l2 -> l1 = l2.
Proof.
  intros H1 H2 Hp.
  apply (StronglySorted_unique_strong (fun a b => name_less a b = true)); try assumption.
  intros a b Ha Hb Hab Hba. unfold name_less in *.
  rewrite (string_ltb_asym _ _ Hab) in Hba. discriminate.
Qed.

Lemma sort_dirs_order_irrelevant l1 l2 :
  NoDup (dir_name <$> l1) -> l1 ≡ₚ l2 -> sort_dirs l1 = sort_dirs l2.
Proof.
  intros Hnd Hp. apply ascending_unique.
  - now apply sort_dirs_ascending.
  - apply sort_dirs_ascending. now rewrite <- Hp.
  - now rewrite !sort_dirs_perm.
Qed.

(** The file names of the listing on an existing root. *)
Lemma get_imagenet_listing_filenames fs folder root :
  fs folder = Some root ->
  exists listing,
    get_imagenet_listing fs folder = Ok listing /\
    filename <$> listing =
      (d ← sort_dirs (get_dirs root);
       file_full_name <$>
         filter (fun f => accepted (file_name f) = true) (get_files d)).
Proof.
  intros Hroot. unfold get_imagenet_listing, open_directory.
  rewrite Hroot, bind_Ok.
  destruct (scan_dirs_filenames (sort_dirs (get_dirs root)) initial_temp [])
    as (temp' & results' & -> & Hf).
  exists results'. split; [reflexivity|exact Hf].
Qed.

End scanner_more.

(** X1. For a directory name of the form [id_description] the label is
    everything after the first underscore, later underscores included. *)
Theorem extract_desc_class_after_first_underscore (id desc : string) :
  no_underscore id ->
  size (id ++ String "_" desc) < SIZE_MODULUS ->
  extract_desc_class (id ++ String "_" desc) = Ok desc.
Proof.
  intros Hno Hsize. unfold extract_desc_class, find.
  rewrite find_from_first by exact Hno. rewrite Z.add_0_l.
  assert (Hlen : size (id ++ String "_" desc) = size id + 1 + size desc).
  { unfold size. rewrite string_app_length. simpl String.length. lia. }
  pose proof (size_nonneg id). pose proof (size_nonneg desc).
  rewrite wrap_small by lia. rewrite substr_in_range by lia. f_equal.
  replace (id ++ String "_" desc)%string with ((id ++ "_") ++ desc)%string
    by (rewrite append_assoc; reflexivity).
  replace (Z.to_nat (size id + 1)) with (String.length (id ++ "_")).
  - apply drop_chars_app.
  - rewrite string_app_length. unfold size. simpl. lia.
Qed.

Lemma extract_desc_class_after_first_underscore_witness :
  extract_desc_class ("n02123045" ++ String "_" "tabby_cat") = Ok "tabby_cat"%string.
Proof.
  apply (extract_desc_class_after_first_underscore "n02123045" "tabby_cat").
  - unfold no_underscore. simpl. repeat constructor; discriminate.
  - vm_compute. reflexivity.
Defined.



Section listing_shape.

Variable g : directory -> Z.

Lemma constant_labels_sorted (l : list imagenet_info) (c : Z) :
  Forall (fun r => numeric_label r = c) l ->
  StronglySorted (fun a b => numeric_label a <= numeric_label b) l.
Proof.
  induction 1 as [|r l Hr Hl IH]; constructor; [exact IH|].
  eapply Forall_impl; [exact Hl|]. intros r' Hr'. simpl in *. lia.
Qed.

(** Blocks labelled with consecutive numbers form an ascending list whose
    labels stay within the numbers used. *)
Lemma numbered_blocks todo : forall base : nat,
  (forall i d, todo !! i = Some d -> g d = Z.of_nat (base + i)) ->
  StronglySorted (fun a b => numeric_label a <= numeric_label b)
                 (d ← todo; records_of d (g d)) /\
  Forall (fun r => Z.of_nat base <= numeric_label r < Z.of_nat (base + length todo))
         (d ← todo; records_of d (g d)).
Proof.
  induction todo as [|d todo IH]; intros base Hg.
  - split; constructor.
  - rewrite bind_cons.
    assert (Hd : g d = Z.of_nat base).
    { rewrite (Hg 0%nat d eq_refl). f_equal. lia. }
    destruct (IH (S base)) as [Hs Hb].
    { intros i d' Hi. rewrite (Hg (S i) d' Hi). f_equal. lia. }
    assert (Hblock : Forall (fun r => numeric_label r = Z.of_nat base)
                            (records_of d (g d))).
    { rewrite Hd. eapply Forall_impl; [apply records_of_labels|].
      intros r [Hr _]. exact Hr. }
    split.
    + apply StronglySorted_app_2.
      * intros x1 x2 H1 H2. rewrite Forall_forall in Hblock, Hb.
        rewrite (Hblock x1 H1). specialize (Hb x2 H2). simpl in Hb. lia.
      * eapply constant_labels_sorted, Hblock.
      * exact Hs.
    + apply Forall_app. split.
      * eapply Forall_impl; [exact Hblock|]. intros r Hr. simpl in *. lia.
      * eapply Forall_impl; [exact Hb|]. intros r Hr. simpl in *. lia.
Qed.

End listing_shape.

(** X3. In the listing the numeric labels never decrease from one record
    to the next, and each is at least zero and less than the number of class
    subdirectories. *)
Theorem listing_labels_ascend_within_class_count fs folder root listing :
  fs folder = Some root ->
  NoDup (dir_name <$> get_dirs root) ->
  Z.of_nat (length (get_dirs root)) < SIZE_MODULUS ->
  get_imagenet_listing fs folder = Ok listing ->
  StronglySorted (fun a b => numeric_label a <= numeric_label b) listing /\
  Forall (fun r => 0 <= numeric_label r < Z.of_nat (length (get_dirs root))) listing.
Proof.
  intros Hroot Hnd Hlen Hlist.
  rewrite (get_imagenet_listing_spec fs folder root Hroot Hnd Hlen) in Hlist.
  injection Hlist as <-.
  destruct (numbered_blocks (rank (get_dirs root)) (sort_dirs (get_dirs root)) 0)
    as [Hs Hb].
  - intros i d Hi. simpl.
    pose proof (sort_dirs_ascending _ Hnd) as Hasc.
    apply list_elem_of_split_length in Hi as (before & after & Heq & ->).
    rewrite <- (rank_perm _ _ d (sort_dirs_perm (get_dirs root))).
    rewrite Heq in Hasc |- *. now apply rank_in_ascending.
  - split; [exact Hs|].
    eapply Forall_impl; [exact Hb|]. intros r Hr. simpl in Hr.
    rewrite sort_dirs_perm in Hr. lia.
Qed.

Lemma listing_labels_ascend_within_class_count_witness :
  StronglySorted (fun a b => numeric_label a <= numeric_label b) sample_listing /\
  Forall (fun r => 0 <= numeric_label r < Z.of_nat (length (get_dirs sample_root)))
         sample_listing.
Proof.
  apply (listing_labels_ascend_within_class_count sample_fs "train" sample_root).
  - reflexivity.
  - refine (bool_decide_unpack _ _). vm_compute. exact I.
  - vm_compute. reflexivity.
  - vm_compute. reflexivity.
Defined.

(** X4. Two records of the listing with the same numeric label carry the
    same textual label: the numeric label determines the class text. *)
Theorem numeric_label_determines_label fs folder root listing r1 r2 :
  fs folder = Some root ->
  NoDup (dir_name <$> get_dirs root) ->
  Z.of_nat (length (get_dirs root)) < SIZE_MODULUS ->
  get_imagenet_listing fs folder = Ok listing ->
  r1 ∈ listing -> r2 ∈ listing ->
  numeric_label r1 = numeric_label r2 -> label r1 = label r2.
Proof.
  intros Hroot Hnd Hlen Hlist H1 H2 Heq.
  rewrite (get_imagenet_listing_spec fs folder root Hroot Hnd Hlen) in Hlist.
  injection Hlist as <-.
  apply list_elem_of_bind in H1 as (d1 & Hr1 & Hd1).
  apply list_elem_of_bind in H2 as (d2 & Hr2 & Hd2).
  pose proof (records_of_labels d1 (rank (get_dirs root) d1)) as F1.
  pose proof (records_of_labels d2 (rank (get_dirs root) d2)) as F2.
  rewrite Forall_forall in F1, F2.
  destruct (F1 r1 Hr1) as [N1 L1]. destruct (F2 r2 Hr2) as [N2 L2].
  assert (Hidx : forall d, d ∈ sort_dirs (get_dirs root) ->
            exists i, sort_dirs (get_dirs root) !! i = Some d /\
                      rank (get_dirs root) d = Z.of_nat i).
  { intros d Hd. apply list_elem_of_lookup in Hd as [i Hi]. exists i.
    split; [exact Hi|].
    pose proof (sort_dirs_ascending _ Hnd) as Hasc.
    apply list_elem_of_split_length in Hi as (before & after & Heq' & ->).
    rewrite <- (rank_perm _ _ d (sort_dirs_perm (get_dirs root))).
    rewrite Heq' in Hasc |- *. now apply rank_in_ascending. }
  destruct (Hidx d1 Hd1) as (i1 & Hi1 & R1). destruct (Hidx d2 Hd2) as (i2 & Hi2 & R2).
  assert (i1 = i2) by lia. subst i2.
  assert (d1 = d2) by congruence. subst d2. congruence.
Qed.

Lemma numeric_label_determines_label_witness :
  label {| filename := "train/n002_dog/d1.jpg"; label := "dog"; numeric_label := 3 |} =
  label {| filename := "train/n002_dog/d2.JPG"; label := "dog"; numeric_label := 3 |}.
Proof.
  apply (numeric_label_determines_label sample_fs "train" sample_root sample_listing).
  - reflexivity.
  - refine (bool_decide_unpack _ _). vm_compute. exact I.
  - vm_compute. reflexivity.
  - vm_compute. reflexivity.
  - unfold sample_listing. do 2 right. left.
  - unfold sample_listing. do 3 right. left.
  - reflexivity.
Defined.

(** X5. The listing does not depend on the order in which the file system
    enumerates the class subdirectories: two roots holding the same
    subdirectories, with pairwise distinct names, give the same listing. *)
Theorem listing_independent_of_enumeration_order fs1 fs2 folder1 folder2 root1 root2 :
  fs1 folder1 = Some root1 -> fs2 folder2 = Some root2 ->
  NoDup (dir_name <$> get_dirs root1) ->
  get_dirs root1 ≡ₚ get_dirs root2 ->
  get_imagenet_listing fs1 folder1 = get_imagenet_listing fs2 folder2.
Proof.
  intros H1 H2 Hnd Hp. unfold get_imagenet_listing, open_directory.
  rewrite H1, H2, !bind_Ok.
  now rewrite (sort_dirs_order_irrelevant _ _ Hnd Hp).
Qed.

Lemma listing_independent_of_enumeration_order_witness :
  get_imagenet_listing sample_fs "train" =
  get_imagenet_listing
    (fun path => if String.eqb path "t" then
                   Some (Directory "t" [] (reverse (get_dirs sample_root))) else None) "t".
Proof.
  apply (listing_independent_of_enumeration_order _ _ "train" "t" sample_root
           (Directory "t" [] (reverse (get_dirs sample_root)))).
  - reflexivity.
  - reflexivity.
  - refine (bool_decide_unpack _ _). vm_compute. exact I.
  - simpl get_dirs at 2. symmetry. apply reverse_Permutation.
Defined.

(** X6. On an existing root the listing is empty exactly when no class
    subdirectory holds an accepted file (a root without subdirectories
    included); the builder then throws the "No images found" error and
    leaves the disk as it was. *)
Theorem no_accepted_file_means_no_dataset `{Codecs}
    (env : Builder.environment) (d : disk) folder out rows cols root :
  Builder.fs env folder = Some root ->
  (get_imagenet_listing (Builder.fs env) folder = Ok [] <->
   Forall holds_no_image (get_dirs root)) /\
  (Forall holds_no_image (get_dirs root) ->
   Builder.create_imagenet_dataset env d folder out rows cols =
     (d, Throw (dlib_error ("No images found in directory: " ++ folder)))).
Proof.
  intros Hroot.
  assert (Hiff : get_imagenet_listing (Builder.fs env) folder = Ok [] <->
                 Forall holds_no_image (get_dirs root)).
  { destruct (get_imagenet_listing_filenames (Builder.fs env) folder root Hroot)
      as (listing & Hl & Hf).
    rewrite Hl. split.
    - intros [= ->]. simpl in Hf. symmetry in Hf.
      apply Forall_forall. intros dir Hdir.
      rewrite <- sort_dirs_perm in Hdir.
      apply list_elem_of_split in Hdir as (l1 & l2 & Hsplit).
      rewrite Hsplit, bind_app, bind_cons in Hf.
      apply app_eq_nil in Hf as [_ Hf]. apply app_eq_nil in Hf as [Hf _].
      apply fmap_nil_inv in Hf. unfold holds_no_image.
      apply Forall_forall. intros f Hfile.
      destruct (accepted (file_name f)) eqn:Hacc; [|reflexivity].
      assert (f ∈ filter (fun f => accepted (file_name f) = true) (get_files dir))
        by (apply list_elem_of_filter; auto).
      rewrite Hf in *. now apply elem_of_nil in H0.
    - intros Hall. f_equal. apply (fmap_nil_inv filename). rewrite Hf.
      clear Hf Hl. rewrite <- sort_dirs_perm in Hall.
      induction Hall as [|dir l Hdir _ IH]; [reflexivity|].
      rewrite bind_cons, IH, app_nil_r.
      unfold holds_no_image in Hdir. rewrite Forall_forall in Hdir.
      rewrite filter_none; [reflexivity|].
      intros f Hfile. rewrite (Hdir f Hfile). discriminate. }
  split; [exact Hiff|].
  intros Hall. apply Hiff in Hall.
  unfold Builder.create_imagenet_dataset. rewrite Hall. reflexivity.
Qed.

Lemma no_accepted_file_means_no_dataset_witness :
  (get_imagenet_listing bare_suffix_fs "train" = Ok [] <->
   Forall holds_no_image
     [Directory "n001_cat" [File ".jpg" "train/n001_cat/.jpg"] []]) /\
  @Builder.create_imagenet_dataset Wire.codecs
    {| Builder.fs := bare_suffix_fs; Builder.lib := sample_lib;
       Builder.terminate_flag_at := fun _ => false;
       Builder.can_write := fun _ => true |}
    ∅ "train" "imagenet.dat" 224 224 =
  (∅, Throw (dlib_error "No images found in directory: train")).
Proof.
  destruct (@no_accepted_file_means_no_dataset Wire.codecs
              {| Builder.fs := bare_suffix_fs; Builder.lib := sample_lib;
                 Builder.terminate_flag_at := fun _ => false;
                 Builder.can_write := fun _ => true |}
              ∅ "train" "imagenet.dat" 224 224
              (Directory "train" []
                 [Directory "n001_cat" [File ".jpg" "train/n001_cat/.jpg"] []]))
    as [Hiff Hthrow].
  - reflexivity.
  - split; [exact Hiff|]. apply Hthrow.
    repeat constructor.
Defined.

(** ** Dataset builder *)

Section builder_more.

Variables (lib : library) (rows cols : Z).

(** Whenever the loader returns an image, the image has the requested
    dimensions. *)
Lemma load_and_resize_image_dims filename img :
  snd (load_and_resize_image lib filename rows cols) = Ok img ->
  nr img = rows /\ nc img = cols.
Proof.
  unfold load_and_resize_image, matrix_new.
  destruct (load_image lib filename) as [e|src]; simpl; [discriminate|].
  destruct (Z.eqb_spec (nr src) rows) as [Hr|Hr];
    destruct (Z.eqb_spec (nc src) cols) as [Hc|Hc]; simpl.
  1: intros [= <-]; auto.
  all: destruct ((0 <=? rows) && (0 <=? cols)); simpl; [|discriminate];
    intros [= <-]; split; reflexivity.
Qed.

Lemma ingest_one_cases ds info :
  match loaded lib rows cols info with
  | Some img =>
      images (ingest_one lib rows cols ds info) = images ds ++ [img] /\
      labels (ingest_one lib rows cols ds info) = labels ds ++ [label info] /\
      numeric_labels (ingest_one lib rows cols ds info) =
        numeric_labels ds ++ [numeric_label info]
  | None => ingest_one lib rows cols ds info = ds
  end.
Proof.
  unfold loaded, ingest_one.
  destruct (snd (load_and_resize_image lib (filename info) rows cols));
    simpl; auto.
Qed.

(** The accumulated dataset holds the samples of the records whose image
    loads, in the order of the records. *)
Lemma ingested_samples records :
  images (ingested lib rows cols records) = omap (loaded lib rows cols) records /\
  labels (ingested lib rows cols records) =
    label <$> filter (fun r => is_Some (loaded lib rows cols r)) records /\
  numeric_labels (ingested lib rows cols records) =
    numeric_label <$> filter (fun r => is_Some (loaded lib rows cols r)) records.
Proof.
  induction records as [|info records IH] using rev_ind.
  - repeat split.
  - destruct IH as (Hi & Hl & Hn).
    unfold ingested. rewrite foldl_app. simpl. fold (ingested lib rows cols records).
    rewrite omap_app, filter_app, !fmap_app. simpl.
    pose proof (ingest_one_cases (ingested lib rows cols records) info) as Hc.
    destruct (loaded lib rows cols info) as [img|] eqn:Hload.
    + destruct Hc as (Hi' & Hl' & Hn').
      rewrite Hi', Hl', Hn', Hi, Hl, Hn.
      rewrite filter_cons_True by (rewrite Hload; eauto). auto.
    + rewrite Hc, Hi, Hl, Hn.
      rewrite filter_cons_False by (rewrite Hload; apply is_Some_None).
      simpl. rewrite !app_nil_r. auto.
Qed.

End builder_more.

(** X7. When the flag is never seen set and the output can be opened, the
    builder succeeds and the file it writes is the stream of the dataset
    holding, in scan order, exactly the records whose image loads: an image
    that fails to load is left out and takes nothing else with it. *)
Theorem uninterrupted_build_keeps_loadable_records `{Codecs}
    (env : Builder.environment) (d : disk) folder out rows cols listing :
  get_imagenet_listing (Builder.fs env) folder = Ok listing ->
  listing <> [] ->
  (forall i, (i < length listing)%nat -> Builder.terminate_flag_at env i = false) ->
  Builder.can_write env out = true ->
  exists ds log,
    Builder.create_imagenet_dataset env d folder out rows cols =
      (<[out := write_dataset ds]> d, Ok log) /\
    images ds = omap (loaded (Builder.lib env) rows cols) listing /\
    labels ds =
      label <$> filter (fun r => is_Some (loaded (Builder.lib env) rows cols r)) listing /\
    numeric_labels ds =
      numeric_label <$>
        filter (fun r => is_Some (loaded (Builder.lib env) rows cols r)) listing.
Proof.
  intros Hlist Hne Hclear Hw.
  exists (ingested (Builder.lib env) rows cols listing).
  unfold Builder.create_imagenet_dataset. rewrite Hlist.
  destruct (decide (listing = [])) as [Heq|_]; [contradiction|].
  match goal with |- context [Builder.initial_state ?l] => set (log0 := l) end.
  destruct (loop_run_until env listing rows cols (length listing) (length listing)
              (Builder.initial_state log0))
    as (st & Hrun & _ & Hds & _); simpl; try lia.
  - intros i Hi. apply Hclear. lia.
  - reflexivity.
  - rewrite Hrun. unfold Builder.save_dataset. rewrite Hw, Hds.
    rewrite firstn_all. eexists. split; [reflexivity|].
    apply ingested_samples.
Qed.

Lemma uninterrupted_build_keeps_loadable_records_witness :
  exists ds log,
    @Builder.create_imagenet_dataset Wire.codecs (sample_env 4) ∅
      "train" "imagenet.dat" 1 2 =
      (<["imagenet.dat"%string := @write_dataset Wire.codecs ds]> ∅, Ok log) /\
    images ds = omap (loaded sample_lib 1 2) sample_listing /\
    labels ds =
      label <$> filter (fun r => is_Some (loaded sample_lib 1 2 r)) sample_listing /\
    numeric_labels ds =
      numeric_label <$> filter (fun r => is_Some (loaded sample_lib 1 2 r)) sample_listing.
Proof.
  apply (@uninterrupted_build_keeps_loadable_records Wire.codecs (sample_env 4) ∅
           "train" "imagenet.dat" 1 2 sample_listing).
  - vm_compute. reflexivity.
  - discriminate.
  - intros i Hi. simpl. apply bool_decide_eq_false. simpl in Hi. lia.
  - reflexivity.
Defined.

(** X8. Every image held by the dataset, at loop entry and after each
    iteration, has exactly the requested number of rows and columns. *)
Theorem ingested_images_have_target_size
    (env : Builder.environment) listing rows cols log0 st :
  reachable env listing rows cols log0 st ->
  Forall (fun img => nr img = rows /\ nc img = cols) (images (Builder.dataset st)).
Proof.
  induction 1 as [|st st' _ IH Hstep]; [constructor|].
  apply loop_step_inv in Hstep as (info & _ & _ & Hbody).
  destruct (loop_body_ok env rows cols (length listing) info st) as (st1 & Hb & _ & Hds).
  rewrite Hb in Hbody. injection Hbody as <-. rewrite Hds.
  pose proof (ingest_one_cases (Builder.lib env) rows cols (Builder.dataset st) info) as Hc.
  destruct (loaded (Builder.lib env) rows cols info) as [img|] eqn:Hload.
  - destruct Hc as (-> & _ & _). apply Forall_app. split; [exact IH|].
    constructor; [|constructor].
    apply (load_and_resize_image_dims (Builder.lib env) rows cols (filename info)).
    unfold loaded in Hload.
    destruct (snd (load_and_resize_image (Builder.lib env) (filename info) rows cols));
      congruence.
  - now rewrite Hc.
Qed.

Lemma ingested_images_have_target_size_witness :
  Forall (fun img => nr img = 3 /\ nc img = 3)
    (images
       (Builder.dataset
          {| Builder.loop_i := 1;
             Builder.dataset :=
               {| images := [resize_image sample_lib sample_image 3 3 interpolate_bilinear];
                  labels := ["misc"%string]; numeric_labels := [0] |};
             Builder.log := [Builder.LogProgress 1 1] |})).
Proof.
  apply (ingested_images_have_target_size (sample_env 4) (take 1 sample_listing) 3 3 []).
  eapply reachable_iteration; [apply reachable_entry|].
  vm_compute. reflexivity.
Defined.

(** X9. Whatever the outcome, the builder leaves every file other than the
    output file as it was. *)
Theorem builder_touches_only_output_file `{Codecs}
    (env : Builder.environment) (d : disk) folder out rows cols (path : string) :
  path <> out ->
  fst (Builder.create_imagenet_dataset env d folder out rows cols) !! path = d !! path.
Proof.
  intros Hne. unfold Builder.create_imagenet_dataset.
  destruct (get_imagenet_listing (Builder.fs env) folder) as [listing|e|]; try reflexivity.
  destruct (decide (listing = [])); [reflexivity|].
  destruct (Builder.loop_run _ _ _ _ _ _) as [st|e|]; try reflexivity.
  unfold Builder.save_dataset.
  destruct (Builder.can_write env out); simpl; [|reflexivity].
  apply lookup_insert_ne. congruence.
Qed.

Lemma builder_touches_only_output_file_witness :
  fst (@Builder.create_imagenet_dataset Wire.codecs (sample_env 4)
         (<["notes.txt"%string := [Byte.x41]]> ∅) "train" "imagenet.dat" 1 2)
    !! "notes.txt"%string =
  (<["notes.txt"%string := [Byte.x41]]> ∅ : disk) !! "notes.txt"%string.
Proof.
  apply (@builder_touches_only_output_file Wire.codecs).
  discriminate.
Defined.

(** ** Interrupt flag *)

Section interrupt.

Import Interrupt.

Lemma flag_after_true delivered : flag_after delivered true = true.
Proof.
  induction delivered as [|s l IH]; [reflexivity|].
  unfold flag_after in *. simpl. unfold signal_handler at 2.
  destruct (s =? SIGINT); exact IH.
Qed.

Lemma flag_after_false delivered :
  flag_after delivered false = true <-> SIGINT ∈ delivered.
Proof.
  induction delivered as [|s l IH].
  - split; [discriminate|]. intros H. now apply elem_of_nil in H.
  - unfold flag_after in *. simpl. unfold signal_handler at 2.
    rewrite elem_of_cons. destruct (Z.eqb_spec s SIGINT) as [->|Hne].
    + split; [auto|]. intros _. apply flag_after_true.
    + rewrite IH. split; [auto|]. intros [Heq|Hin]; [congruence|exact Hin].
Qed.

Lemma terminate_flag_of_spec deliveries i :
  terminate_flag_of deliveries i = true <->
  exists j, (j <= i)%nat /\ SIGINT ∈ deliveries j.
Proof.
  unfold terminate_flag_of. rewrite flag_after_false, list_elem_of_bind.
  split.
  - intros (j & Hin & Hj). apply elem_of_seq in Hj. exists j. split; [lia|exact Hin].
  - intros (j & Hj & Hin). exists j. split; [exact Hin|]. apply elem_of_seq. lia.
Qed.

End interrupt.

(** X10. The flag reads set at the condition of iteration [i] exactly when
    a [SIGINT] was delivered before that evaluation; no other signal sets
    it, and once set it stays set. *)
Theorem flag_is_set_by_sigint_only (deliveries : nat -> list Z) (i : nat) :
  (Interrupt.terminate_flag_of deliveries i = true <->
   exists j, (j <= i)%nat /\ Interrupt.SIGINT ∈ deliveries j) /\
  (forall i', (i <= i')%nat ->
     Interrupt.terminate_flag_of deliveries i = true ->
     Interrupt.terminate_flag_of deliveries i' = true).
Proof.
  split; [apply terminate_flag_of_spec|].
  intros i' Hle. rewrite !terminate_flag_of_spec.
  intros (j & Hj & Hin). exists j. split; [lia|exact Hin].
Qed.

Lemma flag_is_set_by_sigint_only_witness :
  Interrupt.terminate_flag_of (fun i => if (i =? 1)%nat then [15; 2] else [1]) 3 = true.
Proof.
  apply (proj2 (flag_is_set_by_sigint_only
                  (fun i => if (i =? 1)%nat then [15; 2] else [1]) 1) 3%nat).
  - lia.
  - vm_compute. reflexivity.
Defined.



(** ** Dataset splitter *)

Section pairs.

Context {A B : Type}.

Lemma select_single {T} (v : list T) (i : Z) (x : T) :
  0 <= i -> v !! Z.to_nat i = Some x -> select v [i] = [x].
Proof.
  intros Hi Hx. unfold select. simpl.
  destruct (Z.ltb_spec i 0); [lia|]. now rewrite Hx.
Qed.

Lemma select_zip (a : list A) (b : list B) (l : list Z) :
  Forall (in_bounds a) l -> Forall (in_bounds b) l ->
  select (zip a b) l = zip (select a l) (select b l).
Proof.
  induction l as [|i l IH]; intros Ha Hb; [reflexivity|].
  inversion Ha as [|? ? Hia Hla]; inversion Hb as [|? ? Hib Hlb]; subst.
  rewrite (select_cons (zip a b)), (select_cons a), (select_cons b), IH by assumption.
  destruct Hia as [Hlo Hhi]. destruct Hib as [_ Hhi'].
  destruct (lookup_lt_is_Some_2 a (Z.to_nat i)) as [x Hx]; [lia|].
  destruct (lookup_lt_is_Some_2 b (Z.to_nat i)) as [y Hy]; [lia|].
  assert (Hxy : zip a b !! Z.to_nat i = Some (x, y)).
  { apply lookup_zip_Some. auto. }
  rewrite (select_single a i x Hlo Hx), (select_single b i y Hlo Hy),
          (select_single (zip a b) i (x, y) Hlo Hxy).
  reflexivity.
Qed.

End pairs.

(** X12. A split keeps every image with its own label.  Whenever the
    splitter returns, the training outputs are the samples at the first
    [split point] shuffled indices and the testing outputs those at the
    remaining ones, each in shuffled order, and the image-label pairs of the
    two outputs are, as a multiset, the pairs of the stored dataset. *)
Theorem split_keeps_image_label_pairs
    (env : Splitter.environment) (ds : imagenet_dataset) tf out :
  (forall l, Splitter.shuffle env l ≡ₚ l) ->
  length (numeric_labels ds) = length (images ds) ->
  Splitter.split_dataset env ds tf = Ok out ->
  (exists sp,
     Splitter.compute_split_point (Z.of_nat (length (images ds))) tf = Ok sp /\
     out = split_at ds
             (Splitter.shuffle env (seqZ 0 (Z.of_nat (length (images ds))))) sp) /\
  zip (Splitter.training_images out) (Splitter.training_labels out) ++
  zip (Splitter.testing_images out) (Splitter.testing_labels out)
    ≡ₚ zip (images ds) (numeric_labels ds).
Proof.
  intros Hperm Hlen Hout.
  apply (split_dataset_inv env ds tf Hperm Hlen) in Hout as (sp & Hsp & _ & _ & _ & _ & ->).
  split; [eauto|].
  set (shuffled := Splitter.shuffle env (seqZ 0 (Z.of_nat (length (images ds))))).
  assert (Hi : Forall (in_bounds (images ds)) shuffled)
    by apply shuffled_in_bounds, Hperm.
  assert (Hl : Forall (in_bounds (numeric_labels ds)) shuffled).
  { apply shuffled_in_bounds. rewrite Hlen. apply Hperm. }
  simpl.
  rewrite <- !select_zip by first [now apply Forall_take | now apply Forall_drop].
  rewrite <- select_app, take_drop.
  apply select_shuffled.
  replace (length (zip (images ds) (numeric_labels ds))) with (length (images ds)).
  - apply Hperm.
  - rewrite length_zip. lia.
Qed.

Lemma split_keeps_image_label_pairs_witness :
  exists out,
    Splitter.split_dataset sample_split_env sample_dataset (nearest_double 4 10) = Ok out /\
    zip (Splitter.training_images out) (Splitter.training_labels out) ++
    zip (Splitter.testing_images out) (Splitter.testing_labels out)
      ≡ₚ zip (images sample_dataset) (numeric_labels sample_dataset).
Proof.
  eexists. split; [vm_compute; reflexivity|].
  apply (split_keeps_image_label_pairs sample_split_env sample_dataset (nearest_double 4 10)).
  - intros l. apply reverse_Permutation.
  - reflexivity.
  - vm_compute. reflexivity.
Defined.



(** X14. What the builder writes, the splitter reads.  After an
    uninterrupted build, loading the output file splits exactly the dataset
    of the records whose image loaded, provided the encoders honour their
    contract and can represent that dataset. *)
Theorem built_file_is_the_dataset_split `{C : Codecs} (HC : LawfulCodecs C)
    (benv : Builder.environment) (senv : Splitter.environment) (d : disk)
    folder out rows cols tf listing :
  get_imagenet_listing (Builder.fs benv) folder = Ok listing ->
  listing <> [] ->
  (forall i, (i < length listing)%nat -> Builder.terminate_flag_at benv i = false) ->
  Builder.can_write benv out = true ->
  representable_dataset (ingested (Builder.lib benv) rows cols listing) ->
  Splitter.load_stable_imagenet_1k senv
    (fst (Builder.create_imagenet_dataset benv d folder out rows cols)) out tf =
  Splitter.split_dataset senv (ingested (Builder.lib benv) rows cols listing) tf.
Proof.
  intros Hlist Hne Hclear Hw Hrep.
  assert (Hdisk : fst (Builder.create_imagenet_dataset benv d folder out rows cols) =
                  <[out := write_dataset (ingested (Builder.lib benv) rows cols listing)]> d).
  { unfold Builder.create_imagenet_dataset. rewrite Hlist.
    destruct (decide (listing = [])) as [Heq|_]; [contradiction|].
    match goal with |- context [Builder.initial_state ?l] => set (log0 := l) end.
    destruct (loop_run_until benv listing rows cols (length listing) (length listing)
                (Builder.initial_state log0))
      as (st & Hrun & _ & Hds & _); simpl; try lia.
    - intros i Hi. apply Hclear. lia.
    - reflexivity.
    - rewrite Hrun. unfold Builder.save_dataset. rewrite Hw, Hds, firstn_all.
      reflexivity. }
  rewrite Hdisk. apply load_stable_imagenet_1k_read.
  unfold open_for_reading. rewrite lookup_insert_eq, bind_Ok.
  now apply read_write_dataset.
Qed.

Lemma built_file_is_the_dataset_split_witness :
  @Splitter.load_stable_imagenet_1k Wire.codecs sample_split_env
    (fst (@Builder.create_imagenet_dataset Wire.codecs (sample_env 4) ∅
            "train" "imagenet.dat" 1 2))
    "imagenet.dat" (nearest_double 5 100) =
  Splitter.split_dataset sample_split_env (ingested sample_lib 1 2 sample_listing)
    (nearest_double 5 100).
Proof.
  apply (@built_file_is_the_dataset_split Wire.codecs wire_codecs_lawful
           (sample_env 4) sample_split_env ∅ "train" "imagenet.dat" 1 2
           (nearest_double 5 100) sample_listing).
  - vm_compute. reflexivity.
  - discriminate.
  - intros i Hi. simpl. apply bool_decide_eq_false. simpl in Hi. lia.
  - reflexivity.
  - assert (E : ingested sample_lib 1 2 sample_listing =
                 {| images := [sample_image; sample_image; sample_image];
                    labels := ["misc"; "cat"; "dog"]%string;
                    numeric_labels := [0; 2; 3] |}) by (vm_compute; reflexivity).
    change (Builder.lib (sample_env 4)) with sample_lib.
    rewrite E. unfold representable_dataset, sample_image, SIZE_MODULUS. simpl.
    repeat split; try lia; repeat constructor; simpl; try lia; try reflexivity.
Defined.

Section dyadic.

Import Splitter.

(** Multiplying a normal number by [2 ^ -k] lowers its exponent by [k]. *)
Lemma double_mul_pow2 m e k :
  digits2_pos m = 53%positive -> 0 <= k -> -1074 <= e - k -> e <= 971 ->
  double_mul (S754_finite false m e) (S754_finite false 4503599627370496 (-52 - k)) =
    S754_finite false m (e - k).
Proof.
  intros Hd Hk Hlo Hhi. unfold double_mul, SFmul. cbn [xorb].
  rewrite Pos.mul_comm. unfold binary_round_aux at 1.
  unfold shr_fexp at 1. unfold Zdigits2. rewrite (digits2_pos_shift_52 m Hd).
  assert (Hf : fexp prec emax (105 + (e + (-52 - k))) = e - k)
    by (unfold fexp, emin, prec, emax; lia).
  rewrite Hf. replace (e - k - (e + (-52 - k))) with 52 by lia.
  cbn [shr shr_record_of_loc]. rewrite shr_52.
  cbn [shr_m loc_of_shr_record round_nearest_even].
  replace (e + (-52 - k) + 52) with (e - k) by lia.
  rewrite (shr_fexp_normal m (e - k) Hd) by lia.
  cbn [shr_m]. unfold prec, emax.
  destruct (Z.leb_spec (e - k) (1024 - 53)); [reflexivity|lia].
Qed.

End dyadic.

(** X15. When [1.0 - test_fraction] is the power of two [2 ^ -k] (test
    fractions 0.5, 0.75, 0.875, ...), the split point of a dataset of fewer
    than [2 ^ 53] samples is exactly the floor of [N / 2 ^ k]: the product
    is computed without rounding. *)
Theorem dyadic_split_point_is_exact (n k : Z) (tf : Splitter.double) :
  0 <= n < 2 ^ 53 -> 0 <= k <= 1000 ->
  Splitter.double_sub Splitter.double_one tf =
    S754_finite false 4503599627370496 (-52 - k) ->
  Splitter.compute_split_point n tf = Ok (n / 2 ^ k).
Proof.
  intros Hn Hk Hsub. unfold Splitter.compute_split_point. rewrite Hsub.
  destruct n as [|p|p]; [| |lia].
  - simpl. rewrite Z.div_0_l; [reflexivity|]. apply Z.pow_nonzero; lia.
  - destruct (double_of_size_t_exact p) as (m & e & -> & Hd & He & Hv); [lia|].
    rewrite double_mul_pow2 by (auto; lia).
    unfold Splitter.size_t_of_double.
    assert (Hval : Z.shiftl (Z.pos m) (e - k) = Z.pos p / 2 ^ k).
    { rewrite <- Z.shiftr_div_pow2, <- Hv by lia.
      apply Z.bits_inj'. intros i Hi.
      rewrite Z.shiftl_spec, Z.shiftr_spec, Z.shiftl_spec by lia.
      f_equal. lia. }
    rewrite Hval.
    assert (Hq : 0 <= Z.pos p / 2 ^ k <= Z.pos p).
    { split; [apply Z.div_pos; lia|].
      apply Z.div_le_upper_bound; [lia|].
      assert (0 < 2 ^ k) by (apply Z.pow_pos_nonneg; lia).
      nia. }
    assert (Z.pos p < 2 ^ 53) by lia.
    destruct (Z.ltb_spec (Z.pos p / 2 ^ k) SIZE_MODULUS) as [|Hge]; [reflexivity|].
    unfold SIZE_MODULUS in Hge. lia.
Qed.

Lemma dyadic_split_point_is_exact_witness :
  Splitter.compute_split_point 7 (nearest_double 3 4) = Ok (7 / 2 ^ 2).
Proof.
  apply (dyadic_split_point_is_exact 7 2 (nearest_double 3 4)).
  - lia.
  - lia.
  - vm_compute. reflexivity.
Defined.

(** ** Program entry point *)

Section driver.

Import Driver.

(** The loop pushes every image together with its label. *)
Lemma split_loop_pairs ds sp indices : forall i out out',
  Splitter.split_loop ds sp indices i out = Ok out' ->
  length (Splitter.training_labels out) = length (Splitter.training_images out) ->
  length (Splitter.testing_labels out) = length (Splitter.testing_images out) ->
  length (Splitter.training_labels out') = length (Splitter.training_images out') /\
  length (Splitter.testing_labels out') = length (Splitter.testing_images out').
Proof.
  induction indices as [|idx rest IH]; intros i out out' Hrun Htrain Htest.
  - injection Hrun as <-. auto.
  - simpl in Hrun.
    destruct (Splitter.at_index (images ds) idx) as [img| |]; try discriminate.
    destruct (Splitter.at_index (numeric_labels ds) idx) as [lbl| |]; try discriminate.
    simpl in Hrun. apply IH in Hrun; [exact Hrun| |].
    + destruct (i <? sp); simpl; rewrite ?length_app; simpl; lia.
    + destruct (i <? sp); simpl; rewrite ?length_app; simpl; lia.
Qed.

Lemma split_dataset_pairs env ds tf out :
  Splitter.split_dataset env ds tf = Ok out ->
  length (Splitter.training_labels out) = length (Splitter.training_images out) /\
  length (Splitter.testing_labels out) = length (Splitter.testing_images out).
Proof.
  unfold Splitter.split_dataset. intros H.
  apply bind_Ok_inv in H as (sp & _ & H).
  apply bind_Ok_inv in H as (? & _ & H). apply bind_Ok_inv in H as (? & _ & H).
  apply bind_Ok_inv in H as (? & _ & H). apply bind_Ok_inv in H as (? & _ & H).
  apply split_loop_pairs in H; auto.
Qed.

Lemma load_stable_imagenet_1k_pairs `{Codecs} env (d : disk) file tf out :
  Splitter.load_stable_imagenet_1k env d file tf = Ok out ->
  length (Splitter.training_labels out) = length (Splitter.training_images out) /\
  length (Splitter.testing_labels out) = length (Splitter.testing_images out).
Proof.
  unfold Splitter.load_stable_imagenet_1k. intros H0.
  apply bind_Ok_inv in H0 as (s & _ & H0). apply bind_Ok_inv in H0 as (ds & _ & H0).
  now apply split_dataset_pairs in H0.
Qed.

Lemma images_shown_app e1 e2 :
  images_shown (e1 ++ e2) = (images_shown e1 + images_shown e2)%nat.
Proof. unfold images_shown. now rewrite filter_app, length_app. Qed.

(** Within the vectors, the loop shows one image per turn. *)
Lemma show_from_spec title imgs lbls count : forall i,
  length lbls = length imgs -> (i + count <= length imgs)%nat ->
  exists events,
    show_from title imgs lbls i count = Ok events /\ images_shown events = count.
Proof.
  induction count as [|count IH]; intros i Hlen Hrange; simpl; [eauto|].
  unfold show_one, Splitter.at_index.
  destruct (Z.ltb_spec (Z.of_nat i) 0); [lia|]. rewrite Nat2Z.id.
  destruct (lookup_lt_is_Some_2 lbls i) as [lbl ->]; [lia|].
  destruct (lookup_lt_is_Some_2 imgs i) as [img ->]; [lia|].
  destruct (IH (S i) Hlen) as (more & -> & Hmore); [lia|].
  simpl. eexists. split; [reflexivity|].
  unfold images_shown in *.
  change ([SetImage img; SetTitle (title ++ to_string (i + 1)); CinIgnore] ++ more)
    with (SetImage img :: SetTitle (title ++ to_string (i + 1)) :: CinIgnore :: more).
  rewrite filter_cons_True by reflexivity.
  rewrite filter_cons_False by (simpl; discriminate).
  rewrite filter_cons_False by (simpl; discriminate).
  simpl. now rewrite Hmore.
Qed.

Lemma preview_spec title imgs lbls :
  length lbls = length imgs ->
  exists events,
    preview title imgs lbls = Ok events /\
    images_shown events = (3 `min` length imgs)%nat.
Proof. intros Hlen. apply show_from_spec; [exact Hlen|lia]. Qed.

End driver.

(** X16. Started with another number of arguments than three, or with a
    size argument that [std::stol] rejects, the program exits with code 1
    having written and shown nothing. *)
Theorem main_rejects_bad_command_line `{Codecs}
    (env : Driver.environment) (d : disk) (argv : list string) :
  length argv <> 4%nat \/
  (exists a0 a1 a2 a3 e, argv = [a0; a1; a2; a3] /\ Driver.stol a3 = inl e) ->
  Driver.main env d argv = (d, Ok Driver.failure).
Proof.
  intros [Hlen|(a0 & a1 & a2 & a3 & e & -> & He)].
  - destruct argv as [|a0 [|a1 [|a2 [|a3 [|a4 rest]]]]]; try reflexivity.
    simpl in Hlen. contradiction.
  - unfold Driver.main. now rewrite He.
Qed.

Lemma main_rejects_bad_command_line_witness :
  @Driver.main Wire.codecs
    {| Driver.build_env := sample_env 9; Driver.split_env := sample_split_env;
       Driver.window_opens := true |}
    ∅ ["prog"; "train"; "imagenet.dat"; "large"]%string = (∅, Ok Driver.failure) /\
  @Driver.main Wire.codecs
    {| Driver.build_env := sample_env 9; Driver.split_env := sample_split_env;
       Driver.window_opens := true |}
    ∅ ["prog"; "train"; "imagenet.dat"]%string = (∅, Ok Driver.failure).
Proof.
  split.
  - apply (@main_rejects_bad_command_line Wire.codecs).
    right. exists "prog"%string, "train"%string, "imagenet.dat"%string, "large"%string,
      Driver.invalid_argument.
    split; reflexivity.
  - apply (@main_rejects_bad_command_line Wire.codecs).
    left. simpl. lia.
Defined.

(** X17. The program exits with code 0 exactly when the size parses, the
    build returns, the load of the file just written returns and the preview
    window opens; the disk is then the one the build left, and the preview
    shows the first three training images and the first three testing
    images, or all of them where there are fewer. *)
Theorem main_succeeds_when_every_stage_does `{Codecs}
    (env : Driver.environment) (d d' : disk) (argv : list string) (o : Driver.outcome) :
  (Driver.main env d argv = (d', Ok o) /\ Driver.exit_code o = 0) <->
  (exists a0 folder out sz size log split,
     argv = [a0; folder; out; sz] /\
     Driver.stol sz = inr size /\
     Builder.create_imagenet_dataset (Driver.build_env env) d folder out size size
       = (d', Ok log) /\
     Splitter.load_stable_imagenet_1k (Driver.split_env env) d' out
       Driver.default_test_fraction = Ok split /\
     Driver.window_opens env = true /\
     Driver.exit_code o = 0 /\
     Driver.images_shown (Driver.shown o) =
       ((3 `min` length (Splitter.training_images split)) +
        (3 `min` length (Splitter.testing_images split)))%nat /\
     (training ← Driver.preview "Training Image #" (Splitter.training_images split)
                  (Splitter.training_labels split);
      testing ← Driver.preview "Testing Image #" (Splitter.testing_images split)
                  (Splitter.testing_labels split);
      mret (training ++ testing)) = Ok (Driver.shown o)).
Proof.
  split.
  - intros [Hmain Hcode].
    destruct argv as [|a0 [|folder [|out [|sz [|a4 rest]]]]];
      try (injection Hmain as <- <-; discriminate).
    unfold Driver.main in Hmain.
    destruct (Driver.stol sz) as [e|size] eqn:Hsz;
      [injection Hmain as <- <-; discriminate|].
    destruct (Builder.create_imagenet_dataset _ d folder out size size)
      as [d1 [log|e|]] eqn:Hcreate;
      [|injection Hmain as <- <-; discriminate|discriminate].
    destruct (Splitter.load_stable_imagenet_1k _ d1 out _) as [split|e|] eqn:Hload;
      [|injection Hmain as <- <-; discriminate|discriminate].
    destruct (Driver.window_opens env) eqn:Hwin;
      [|injection Hmain as <- <-; discriminate].
    destruct (load_stable_imagenet_1k_pairs _ _ _ _ _ Hload) as [Htr Hte].
    destruct (preview_spec "Training Image #" _ _ Htr) as (e1 & Hp1 & Hn1).
    destruct (preview_spec "Testing Image #" _ _ Hte) as (e2 & Hp2 & Hn2).
    rewrite Hp1, Hp2 in Hmain. simpl in Hmain. injection Hmain as <- <-.
    exists a0, folder, out, sz, size, log, split.
    repeat split; try reflexivity; try assumption.
    + cbn [Driver.shown]. rewrite images_shown_app, Hn1, Hn2. reflexivity.
    + rewrite Hp1, Hp2. reflexivity.
  - intros (a0 & folder & out & sz & size & log & split & -> & Hsz & Hcreate & Hload &
            Hwin & Hcode & _ & Hshown).
    split; [|exact Hcode].
    unfold Driver.main. rewrite Hsz, Hcreate, Hload, Hwin, Hshown.
    destruct o as [code events]. simpl in Hcode. now subst code.
Qed.

Lemma main_succeeds_when_every_stage_does_witness :
  let resized := resize_image sample_lib sample_image 2 2 interpolate_bilinear in
  let o := {| Driver.exit_code := 0;
              Driver.shown :=
                [Driver.SetImage resized; Driver.SetTitle "Training Image #1";
                 Driver.CinIgnore;
                 Driver.SetImage resized; Driver.SetTitle "Training Image #2";
                 Driver.CinIgnore;
                 Driver.SetImage resized; Driver.SetTitle "Testing Image #1";
                 Driver.CinIgnore] |} in
  @Driver.main Wire.codecs
    {| Driver.build_env := sample_env 9; Driver.split_env := sample_split_env;
       Driver.window_opens := true |}
    ∅ ["prog"; "train"; "imagenet.dat"; "2"]%string =
    (fst (@Builder.create_imagenet_dataset Wire.codecs (sample_env 9) ∅
            "train" "imagenet.dat" 2 2), Ok o) /\
  Driver.exit_code o = 0.
Proof.
  intros resized o.
  apply (proj2 (@main_succeeds_when_every_stage_does Wire.codecs
                  {| Driver.build_env := sample_env 9;
                     Driver.split_env := sample_split_env;
                     Driver.window_opens := true |}
                  ∅ _ ["prog"; "train"; "imagenet.dat"; "2"]%string o)).
  exists "prog"%string, "train"%string, "imagenet.dat"%string, "2"%string, 2.
  eexists. eexists.
  split; [reflexivity|]. split; [reflexivity|].
  split; [vm_compute; reflexivity|].
  split; [vm_compute; reflexivity|].
  split; [reflexivity|]. split; [reflexivity|].
  split; vm_compute; reflexivity.
Defined.
